(** * The project-store collection of showcode (composables/useProjectStores.js)

    A shallow embedding of the composable that keeps the list of open
    projects (tabs), creates, imports and deletes them, rebuilds the list
    from local storage and renumbers the tabs.

    Every operation of the composable is a computation over a [World]: the
    reactive [projects] array, the state of the Pinia stores, the browser's
    local storage, the alerts emitted on the event bus, the console and the
    current tab.  A computation ends normally with a value or with a thrown
    JavaScript error, and keeps the mutations made before the throw.

    The debounced calls ([store.sync] after 2000 ms, the body of
    [syncTabOrder] after 2500 ms) are timers: the embedding gives the effect
    of the body when it fires and does not model the delay. *)

From stdpp Require Import base option list gmap strings.
From Stdlib Require Import ZArith Lia Sorted Permutation.

Local Open Scope string_scope.
Local Open Scope Z_scope.

(** ** Values read from JSON files and templates

    Numbers are carried as they are; the composable never computes with
    them. *)

#[warnings="-register-all"]
Inductive JsVal : Type :=
| JUndefined
| JNull
| JBool (b : bool)
| JNum (n : Z)
| JStr (s : string)
| JArr (items : list JsVal)
| JObj (fields : list (string * JsVal)).

Inductive JsError : Type :=
| TypeError (what : string)
| SyntaxError.

Inductive completion (A : Type) : Type :=
| Normal (a : A)
| Thrown (e : JsError).
Arguments Normal {A} a.
Arguments Thrown {A} e.

(** Own-property lookup in the field list of an object. *)
Fixpoint own_field (k : string) (fields : list (string * JsVal)) : option JsVal :=
  match fields with
  | [] => None
  | (k', v) :: rest => if String.eqb k k' then Some v else own_field k rest
  end.

Fixpoint set_field (k : string) (v : JsVal) (fields : list (string * JsVal))
  : list (string * JsVal) :=
  match fields with
  | [] => [(k, v)]
  | (k', v') :: rest =>
      if String.eqb k k' then (k, v) :: rest else (k', v') :: set_field k v rest
  end.

(** lodash [has(object, key)] for a one-segment path: an own property of a
    non-null value.  Only objects of a parsed JSON document own the keys
    [tab], [page] and [settings]. *)
Definition has (data : JsVal) (key : string) : bool :=
  match data with
  | JObj fields => bool_decide (is_Some (own_field key fields))
  | _ => false
  end.

(** [v.k]: reading a property of [undefined] or [null] throws; an object
    gives its own field or [undefined]; the names this program reads
    ([tab], [page], [settings], [name], [orientation]) are [undefined] on
    booleans, numbers, strings and arrays. *)
Definition get_prop (v : JsVal) (k : string) : completion JsVal :=
  match v with
  | JUndefined => Thrown (TypeError ("Cannot read properties of undefined (reading '" +:+ k +:+ "')"))
  | JNull => Thrown (TypeError ("Cannot read properties of null (reading '" +:+ k +:+ "')"))
  | JObj fields => Normal (default JUndefined (own_field k fields))
  | _ => Normal JUndefined
  end.

(** [v.k = x] in module (strict) code.  An array would take the named
    property, which [JArr] cannot carry; the composable assigns
    [orientation] only after it has read a string from it, which no array
    gives. *)
Definition set_prop (v : JsVal) (k : string) (x : JsVal) : completion JsVal :=
  match v with
  | JUndefined => Thrown (TypeError ("Cannot set properties of undefined (setting '" +:+ k +:+ "')"))
  | JNull => Thrown (TypeError ("Cannot set properties of null (setting '" +:+ k +:+ "')"))
  | JObj fields => Normal (JObj (set_field k x fields))
  | JArr items => Normal (JArr items)
  | _ => Thrown (TypeError ("Cannot create property '" +:+ k +:+ "'"))
  end.

(** ** The state of a project store *)

(** Modelled from the spec: the store definition (useProjectStoreFactory.js)
    is not among the sources.  A project is "a persistable record with
    fields tab (id, name, order, created_at), page, settings".  [tab.order]
    is absent until an index has been written to it; [tab.created_at] is a
    point in time, taken as a number. *)

Record Tab : Type := mkTab {
  tab_id : string;
  tab_name : JsVal;
  tab_order : option Z;
  tab_created_at : Z;
}.

Record ProjectState : Type := mkProjectState {
  tab : Tab;
  page : JsVal;
  settings : JsVal;
}.

Definition set_tab_name (x : JsVal) (t : Tab) : Tab :=
  mkTab (tab_id t) x (tab_order t) (tab_created_at t).
Definition set_tab_order (o : option Z) (t : Tab) : Tab :=
  mkTab (tab_id t) (tab_name t) o (tab_created_at t).
Definition with_tab (f : Tab -> Tab) (st : ProjectState) : ProjectState :=
  mkProjectState (f (tab st)) (page st) (settings st).
Definition set_page (x : JsVal) (st : ProjectState) : ProjectState :=
  mkProjectState (tab st) x (settings st).
Definition set_settings (x : JsVal) (st : ProjectState) : ProjectState :=
  mkProjectState (tab st) (page st) x.

(** ** The world the composable runs in

    A store object is denoted by its [$id]: Pinia keeps the state of a store
    in [pinia.state.value[$id]], so two references with the same id read and
    write the same state. *)

Record World : Type := mkWorld {
  isDesktop : bool;                               (* $config.isDesktop *)
  projects : list string;                         (* projects.value *)
  pinia : gmap string ProjectState;               (* state of each store *)
  localStorage : list (string * ProjectState);    (* window.localStorage, in key order *)
  alerts : list (string * string);                (* $bus.$emit('alert', level, message) *)
  console : list string;                          (* console.error *)
  currentTab : option string;                     (* currentTab.value *)
  uuid_count : nat;                               (* uuids drawn so far *)
}.

Definition set_projects (x : list string) (w : World) : World :=
  mkWorld (isDesktop w) x (pinia w) (localStorage w) (alerts w) (console w)
          (currentTab w) (uuid_count w).
Definition set_pinia (x : gmap string ProjectState) (w : World) : World :=
  mkWorld (isDesktop w) (projects w) x (localStorage w) (alerts w) (console w)
          (currentTab w) (uuid_count w).
Definition set_localStorage (x : list (string * ProjectState)) (w : World) : World :=
  mkWorld (isDesktop w) (projects w) (pinia w) x (alerts w) (console w)
          (currentTab w) (uuid_count w).
Definition set_alerts (x : list (string * string)) (w : World) : World :=
  mkWorld (isDesktop w) (projects w) (pinia w) (localStorage w) x (console w)
          (currentTab w) (uuid_count w).
Definition set_console (x : list string) (w : World) : World :=
  mkWorld (isDesktop w) (projects w) (pinia w) (localStorage w) (alerts w) x
          (currentTab w) (uuid_count w).
Definition set_currentTab (x : option string) (w : World) : World :=
  mkWorld (isDesktop w) (projects w) (pinia w) (localStorage w) (alerts w) (console w)
          x (uuid_count w).
Definition set_uuid_count (x : nat) (w : World) : World :=
  mkWorld (isDesktop w) (projects w) (pinia w) (localStorage w) (alerts w) (console w)
          (currentTab w) x.

(** ** Computations with state and thrown errors *)

Definition Eff (S A : Type) : Type := S -> completion A * S.

Definition ret {S A} (a : A) : Eff S A := fun s => (Normal a, s).
Definition throw {S A} (e : JsError) : Eff S A := fun s => (Thrown e, s).
Definition bind {S A B} (m : Eff S A) (k : A -> Eff S B) : Eff S B :=
  fun s => match m s with
           | (Normal a, s') => k a s'
           | (Thrown e, s') => (Thrown e, s')
           end.
Definition gets {S A} (f : S -> A) : Eff S A := fun s => (Normal (f s), s).
Definition modify {S} (f : S -> S) : Eff S unit := fun s => (Normal tt, f s).
Definition lift {S A} (c : completion A) : Eff S A := fun s => (c, s).

Declare Scope eff_scope.
Delimit Scope eff_scope with eff.
Notation "x <- m ;; k" := (bind m (fun x => k))
  (at level 100, m at next level, right associativity) : eff_scope.
Notation "m ;;; k" := (bind m (fun _ => k))
  (at level 100, right associativity) : eff_scope.
Local Open Scope eff_scope.

(** [array.forEach(f)] *)
Fixpoint forEach {S A} (f : A -> Eff S unit) (xs : list A) : Eff S unit :=
  match xs with
  | [] => ret tt
  | x :: rest => f x ;;; forEach f rest
  end.

(** [array.map(f)] with an effectful callback. *)
Fixpoint mapM {S A B} (f : A -> Eff S B) (xs : list A) : Eff S (list B) :=
  match xs with
  | [] => ret []
  | x :: rest => y <- f x ;; ys <- mapM f rest ;; ret (y :: ys)
  end.

(** [array.map((x, index) => f(x, index))], indices counted from [i]. *)
Fixpoint mapM_index {S A B} (f : A -> Z -> Eff S B) (i : Z) (xs : list A)
  : Eff S (list B) :=
  match xs with
  | [] => ret []
  | x :: rest => y <- f x i ;; ys <- mapM_index f (i + 1) rest ;; ret (y :: ys)
  end.

(** ** Local storage and the sort of lodash *)

Definition namespace : string := "pages/".

(** [key.startsWith(namespace)], lodash [startsWith(id, namespace)] *)
Definition startsWith (s target : string) : bool := String.prefix target s.

Fixpoint getItem (k : string) (items : list (string * ProjectState))
  : option ProjectState :=
  match items with
  | [] => None
  | (k', v) :: rest => if String.eqb k k' then Some v else getItem k rest
  end.

Definition removeItem (k : string) (items : list (string * ProjectState))
  : list (string * ProjectState) :=
  List.filter (fun kv => negb (String.eqb k (fst kv))) items.

(** [Object.keys(window.localStorage).filter((key) => key.startsWith(namespace))] *)
Definition getPagesFromStorage (w : World) : list string :=
  List.filter (fun key => startsWith key namespace) (List.map fst (localStorage w)).

(** lodash [sortBy(collection, iteratee)]: ascending in the iteratee's value;
    its comparer falls back to the original index when two values compare
    equal, so equal elements keep their order.  Here: insertion from the
    right, an element going before the first one that is not smaller. *)
Fixpoint sort_insert {A} (key : A -> Z) (x : A) (sorted : list A) : list A :=
  match sorted with
  | [] => [x]
  | y :: rest =>
      if key x <=? key y then x :: y :: rest else y :: sort_insert key x rest
  end.

Definition sortBy {A} (xs : list A) (key : A -> Z) : list A :=
  foldr (sort_insert key) [] xs.

(** [array.splice(index, 1)]: a negative start counts from the end, the
    start is clamped to the array, and at most one element is removed. *)
Definition splice1 {A} (index : Z) (xs : list A) : list A :=
  let len := Z.of_nat (length xs) in
  let start := if index <? 0 then Z.max (len + index) 0 else Z.min index len in
  take (Z.to_nat start) xs ++ drop (S (Z.to_nat start)) xs.

(** [[...].includes(v)] for a list of string literals (strict equality). *)
Definition includes (literals : list string) (v : JsVal) : bool :=
  match v with
  | JStr s => existsb (String.eqb s) literals
  | _ => false
  end.

(** The file handed over by the picker: its body parses as JSON or not. *)
Inductive File : Type := mkFile (body : option JsVal).

(** ** Inputs for concrete runs *)

(** A source of identifiers and an initial store state to run the
    composable with. *)
Fixpoint example_uuid (n : nat) : string :=
  match n with
  | O => "3f2a"
  | S k => example_uuid k +:+ "0"
  end.

Definition example_initial (name : string) : ProjectState :=
  mkProjectState (mkTab name (JStr "Untitled Project") None 0)
                 (JObj [("orientation", JStr "left")]) (JObj []).

(** What local storage holds for a saved project. *)
Definition saved (id : string) (order : option Z) (created_at : Z) : ProjectState :=
  mkProjectState (mkTab id (JStr id) order created_at) (JObj []) (JObj []).

(** A browser build with nothing open and nothing stored. *)
Definition empty_world : World := mkWorld false [] ∅ [] [] [] None 0.

(** One open project. *)
Definition one_project_world : World :=
  mkWorld false ["pages/a"] {[ "pages/a" := saved "a" (Some 0) 5 ]} [] [] [] (Some "a") 0.

(** A desktop build with one open project. *)
Definition desktop_world : World :=
  mkWorld true ["pages/a"] {[ "pages/a" := saved "a" (Some 0) 5 ]} [] [] [] (Some "a") 0.

(** A browser build at the plan limit, with B before A. *)
Definition two_project_world : World :=
  mkWorld false ["pages/b"; "pages/a"]
          (<["pages/b" := saved "b" (Some 1) 7]> {[ "pages/a" := saved "a" (Some 0) 5 ]})
          [] [] [] (Some "a") 0.

(** Two stored pages with the same [tab.order]; the one listed first was
    created later. *)
Definition tied_world : World :=
  mkWorld false [] ∅
          [("pages/a", saved "a" (Some 0) 2); ("theme", saved "t" None 0);
           ("pages/b", saved "b" (Some 0) 1)]
          [] [] None 0.

(** An exported configuration of an older version. *)
Definition legacy_file : JsVal :=
  JObj [("tab", JObj [("name", JStr "Old")]);
        ("page", JObj [("orientation", JStr "portrait")]);
        ("settings", JObj [])].

Definition file_without_tab : JsVal :=
  JObj [("page", JObj [("orientation", JStr "left")]); ("settings", JObj [])].

Definition file_without_settings : JsVal :=
  JObj [("tab", JObj [("name", JStr "Partial")]);
        ("page", JObj [("orientation", JStr "left")])].

(** The order the specification words describe for the hydrated
    collection: ascending [tab.order], [tab.created_at] standing in for an
    absent order, ties broken by [tab.created_at]. *)
Definition spec_precedes (a b : ProjectState) : Prop :=
  let key st := default (tab_created_at (tab st)) (tab_order (tab st)) in
  key a < key b \/ (key a = key b /\ tab_created_at (tab a) <= tab_created_at (tab b)).

Definition spec_hydrated_order (w : World) : Prop :=
  forall (i j : nat) (a b : string) (sa sb : ProjectState),
    (i < j)%nat ->
    projects w !! i = Some a -> projects w !! j = Some b ->
    pinia w !! a = Some sa -> pinia w !! b = Some sb ->
    spec_precedes sa sb.

(** What the specification words say of the renumbering: every project's
    [tab.order] equals the index at which the project sits in the
    collection. *)
Definition spec_orders_are_positions (w : World) : Prop :=
  forall (i : nat) (project : string),
    projects w !! i = Some project ->
    tab_order ∘ tab <$> pinia w !! project = Some (Some (Z.of_nat i)).

(** ** The composable *)

Section Composable.

(** [uuid()] of the uuid package: the n-th identifier it hands out. *)
Variable uuid_at : nat -> string.

(** The state a store starts with when nothing is stored under its name
    ([state()] of the store definition). *)
Variable initialState : string -> ProjectState.

Definition uuid : Eff World string :=
  fun w => (Normal (uuid_at (uuid_count w)), set_uuid_count (S (uuid_count w)) w).

Definition emit_alert (level message : string) : Eff World unit :=
  modify (fun w => set_alerts (alerts w ++ [(level, message)]) w).

Definition console_error (message : string) : Eff World unit :=
  modify (fun w => set_console (console w ++ [message]) w).

(** Modelled from the spec: useProjectStoreFactory.js is not among the
    sources.  The factory "creates a persistable, observable record keyed
    by a namespaced identifier"; calling it yields the store of that name,
    whose state is kept if the name already has one. *)
Definition ensure_state (name : string) (m : gmap string ProjectState)
  : gmap string ProjectState :=
  match m !! name with
  | Some _ => m
  | None => <[name := initialState name]> m
  end.

Definition useProjectStoreFactory (name : string) : Eff World string :=
  modify (fun w => set_pinia (ensure_state name (pinia w)) w) ;;;
  ret name.

(** Modelled from the spec: [store.load()] of the missing factory, "load
    existing state if the key pre-exists, else defaults". *)
Definition load_state (store : string) (items : list (string * ProjectState))
           (m : gmap string ProjectState) : gmap string ProjectState :=
  match getItem store items with
  | Some st => <[store := st]> m
  | None => m
  end.

Definition load (store : string) : Eff World unit :=
  modify (fun w => set_pinia (load_state store (localStorage w) (pinia w)) w).

(** Modelled from the spec: [store.clear()] of the missing factory, "tells
    the persistent store to clear its storage". *)
Definition clear (store : string) : Eff World unit :=
  modify (fun w => set_localStorage (removeItem store (localStorage w)) w).

(** [store.$dispose()] stops the store's effect scope and drops its
    subscriptions; the state kept under its id stays. *)
Definition dispose (store : string) : Eff World unit := ret tt.

(** [store.$subscribe(debounce(store.sync, 2000))]: from here on a change of
    the store's state schedules a write of that state to local storage,
    2000 ms after the last change.  The write lands after the call that
    caused it has returned.  A world is the state at the return of a call:
    its [localStorage] is what storage holds at that moment, before any
    scheduled write has landed, and nothing happens at the subscription
    itself. *)
Definition subscribe_sync (store : string) : Eff World unit := ret tt.

(** [store.$patch(mutator)]: the mutator works on the store's state in
    place, so what it changed before a throw stays changed.  Every store
    reference the composable holds has a state, see [wf]. *)
Definition patch (store : string) (mutator : Eff ProjectState unit) : Eff World unit :=
  fun w => match pinia w !! store with
           | Some st =>
               let (r, st') := mutator st in
               (r, set_pinia (<[store := st']> (pinia w)) w)
           | None => (Normal tt, w)
           end.

(** Modelled from the spec: useCurrentTab.js is not among the sources.
    The tab tracker's [setCurrent(project)] records the project's tab id. *)
Definition setTabFromProject (project : string) : Eff World unit :=
  modify (fun w => set_currentTab (tab_id ∘ tab <$> pinia w !! project) w).

Definition canAddNewProject (w : World) : bool :=
  isDesktop w || (Z.of_nat (length (projects w)) <? 2).

Definition storeName (id : string) : string :=
  if startsWith id namespace then id else namespace +:+ id.

Definition makeProjectStore (id : option string) : Eff World string :=
  id <- match id with Some id => ret id | None => uuid end ;;
  let name := storeName id in
  store <- useProjectStoreFactory name ;;
  load store ;;;
  subscribe_sync store ;;;
  ret store.

(** The bare [return;] of the blocked branch gives [undefined], read by
    the callers through [if (project)]: [None] here. *)
Definition addNewProject (id : option string) : Eff World (option string) :=
  can <- gets canAddNewProject ;;
  if negb can then
    emit_alert "danger" "Download the desktop app to unlock more tabs." ;;;
    ret None
  else
    newProject <- makeProjectStore id ;;
    modify (fun w => set_projects (projects w ++ [newProject]) w) ;;;
    setTabFromProject newProject ;;;
    ret (Some newProject).

Definition response_json (file : File) : Eff World JsVal :=
  match file with
  | mkFile (Some data) => ret data
  | mkFile None => throw SyntaxError
  end.

Definition check_required (data : JsVal) (requiredKey : string) : Eff World unit :=
  if negb (has data requiredKey) then
    emit_alert "danger" "Error importing configuration. Required data is missing." ;;;
    console_error ("The configuration file is missing the data key [" +:+ requiredKey +:+ "].")
  else ret tt.

(** The mutator of [importNewProject]. *)
Definition import_mutator (data : JsVal) : Eff ProjectState unit :=
  p <- lift (get_prop data "page") ;;
  modify (set_page p) ;;;
  s <- lift (get_prop data "settings") ;;
  modify (set_settings s) ;;;
  t <- lift (get_prop data "tab") ;;
  n <- lift (get_prop t "name") ;;
  modify (with_tab (set_tab_name n)).

(** [files] is what the file dialog resolved with. *)
Definition importNewProject (files : list File) : Eff World unit :=
  match head files with
  | None => ret tt
  | Some file =>
      data <- response_json file ;;
      forEach (check_required data) ["tab"; "page"; "settings"] ;;;
      project <- addNewProject None ;;
      match project with
      | Some project => patch project (import_mutator data)
      | None => ret tt
      end
  end.

(** The mutator of [addProjectFromTemplate]: the same three assignments,
    then the port of the old orientation setting. *)
Definition template_mutator (data : JsVal) : Eff ProjectState unit :=
  import_mutator data ;;;
  pg <- gets page ;;
  o <- lift (get_prop pg "orientation") ;;
  if includes ["portrait"; "landscape"] o then
    pg <- gets page ;;
    pg' <- lift (set_prop pg "orientation" (JStr "left")) ;;
    modify (set_page pg')
  else ret tt.

(** [cloneDeep] copies a value; values here are immutable. *)
Definition cloneDeep (v : JsVal) : JsVal := v.

Definition addProjectFromTemplate (template : JsVal) : Eff World unit :=
  let data := cloneDeep template in
  project <- addNewProject None ;;
  match project with
  | Some project => patch project (template_mutator data)
  | None => ret tt
  end.

Definition findProjectByTabId (tabId : string) (w : World) : option string :=
  List.find (fun project =>
               match pinia w !! project with
               | Some st => String.eqb (tab_id (tab st)) tabId
               | None => false
               end) (projects w).

Definition currentProject (w : World) : option string :=
  match currentTab w with
  | Some tabId => findProjectByTabId tabId w
  | None => None
  end.

Definition deleteProject (project : string) (index : Z) : Eff World unit :=
  clear project ;;;
  dispose project ;;;
  modify (fun w => set_projects (splice1 index (projects w)) w) ;;;
  ps <- gets projects ;;
  match ps with
  | [] => addNewProject None ;;; ret tt
  | first :: _ => setTabFromProject first
  end.

(** [tab.order ?? tab.created_at] of a stored project. *)
Definition sortKey (w : World) (project : string) : Z :=
  match pinia w !! project with
  | Some st => default (tab_created_at (tab st)) (tab_order (tab st))
  | None => 0
  end.

Definition hydrateFromStorage : Eff World unit :=
  keys <- gets getPagesFromStorage ;;
  stored <- mapM (fun id => makeProjectStore (Some id)) keys ;;
  modify (fun w => set_projects (sortBy stored (sortKey w)) w).

(** The body of the debounced [syncTabOrder]. *)
Definition syncTabOrder : Eff World unit :=
  ps <- gets projects ;;
  mapM_index (fun project index =>
                patch project (modify (with_tab (set_tab_order (Some index)))))
             0 ps ;;;
  ret tt.

(** What the user interface can ask of the composable, and the world after
    a sequence of such requests; a request that throws leaves the world as
    it was at the throw. *)
Inductive request : Type :=
| AddNewProject (id : option string)
| ImportNewProject (files : list File)
| AddProjectFromTemplate (template : JsVal)
| DeleteProject (project : string) (index : Z)
| HydrateFromStorage
| SyncTabOrder.

Definition serve (r : request) (w : World) : World :=
  match r with
  | AddNewProject id => snd (addNewProject id w)
  | ImportNewProject files => snd (importNewProject files w)
  | AddProjectFromTemplate template => snd (addProjectFromTemplate template w)
  | DeleteProject project index => snd (deleteProject project index w)
  | HydrateFromStorage => snd (hydrateFromStorage w)
  | SyncTabOrder => snd (syncTabOrder w)
  end.

Definition serve_all (rs : list request) (w : World) : World :=
  foldl (fun w r => serve r w) w rs.

(** ** The worlds the operations lead to *)

(** The world after a store named [name] has been made: its state is the
    stored one if local storage has the key, else the state it already had,
    else the initial state. *)
Definition made (name : string) (w : World) : World :=
  set_pinia (load_state name (localStorage w) (ensure_state name (pinia w))) w.

(** The world after [addNewProject] went through for store [name]. *)
Definition added (name : string) (w : World) : World :=
  let w1 := set_projects (projects (made name w) ++ [name]) (made name w) in
  set_currentTab (tab_id ∘ tab <$> pinia w1 !! name) w1.

Definition limit_alert : string * string :=
  ("danger", "Download the desktop app to unlock more tabs.").

Definition missing_alert : string * string :=
  ("danger", "Error importing configuration. Required data is missing.").

(** Well-formed worlds: every store in the collection has a state. *)
Definition wf (w : World) : Prop :=
  Forall (fun project => is_Some (pinia w !! project)) (projects w).

(** The world after a store has been made for each of [keys]. *)
Definition hydrated (keys : list string) (w : World) : World :=
  foldl (fun w key => made key w) w keys.

Definition missing_keys (data : JsVal) (keys : list string) : list string :=
  List.filter (fun key => negb (has data key)) keys.

Definition missing_log (key : string) : string :=
  "The configuration file is missing the data key [" +:+ key +:+ "].".

(** The world after the required keys have been checked. *)
Definition reported (data : JsVal) (keys : list string) (w : World) : World :=
  set_console (console w ++ List.map missing_log (missing_keys data keys))
    (set_alerts (alerts w ++ List.map (fun _ => missing_alert) (missing_keys data keys)) w).

Definition set_order (index : Z) : ProjectState -> ProjectState :=
  with_tab (set_tab_order (Some index)).

(** The store states after the positions [index], [index + 1], ... have
    been written to the stores of [ps], left to right. *)
Fixpoint renumbered (index : Z) (ps : list string) (m : gmap string ProjectState)
  : gmap string ProjectState :=
  match ps with
  | [] => m
  | project :: rest => renumbered (index + 1) rest (alter (set_order index) project m)
  end.

(** The name [addNewProject] gives the store it makes. *)
Definition new_name (id : option string) (w : World) : string :=
  storeName (default (uuid_at (uuid_count w)) id).

(** ** Equations of the building blocks *)

Lemma makeProjectStore_given id w :
  makeProjectStore (Some id) w = (Normal (storeName id), made (storeName id) w).
Proof. reflexivity. Qed.

Lemma makeProjectStore_fresh w :
  makeProjectStore None w =
  (Normal (storeName (uuid_at (uuid_count w))),
   made (storeName (uuid_at (uuid_count w))) (set_uuid_count (S (uuid_count w)) w)).
Proof. reflexivity. Qed.

Lemma made_has_state name w : is_Some (pinia (made name w) !! name).
Proof.
  unfold made, load_state, ensure_state; simpl.
  destruct (getItem name (localStorage w)) as [st|].
  - rewrite lookup_insert_eq; eauto.
  - destruct (pinia w !! name) as [st|] eqn:E.
    + rewrite E; eauto.
    + rewrite lookup_insert_eq; eauto.
Qed.

Lemma made_keeps_states name w k :
  is_Some (pinia w !! k) -> is_Some (pinia (made name w) !! k).
Proof.
  intros Hk. destruct (decide (k = name)) as [->|Hne]; [apply made_has_state|].
  unfold made, load_state, ensure_state; simpl.
  destruct (getItem name (localStorage w)), (pinia w !! name);
    rewrite ?lookup_insert_ne by congruence; done.
Qed.

Lemma made_other name w k :
  k <> name -> pinia (made name w) !! k = pinia w !! k.
Proof.
  intros Hne. unfold made, load_state, ensure_state; simpl.
  destruct (getItem name (localStorage w)), (pinia w !! name);
    rewrite ?lookup_insert_ne by congruence; done.
Qed.

Lemma made_stored name w st :
  getItem name (localStorage w) = Some st -> pinia (made name w) !! name = Some st.
Proof.
  intros E. unfold made, load_state; simpl. rewrite E. apply lookup_insert_eq.
Qed.

Lemma addNewProject_blocked id w :
  canAddNewProject w = false ->
  addNewProject id w = (Normal None, set_alerts (alerts w ++ [limit_alert]) w).
Proof. intros E. unfold addNewProject, bind, gets; simpl. rewrite E. reflexivity. Qed.

Lemma addNewProject_given id w :
  canAddNewProject w = true ->
  addNewProject (Some id) w = (Normal (Some (storeName id)), added (storeName id) w).
Proof. intros E. unfold addNewProject, bind, gets; simpl. rewrite E. reflexivity. Qed.

Lemma addNewProject_fresh w :
  canAddNewProject w = true ->
  addNewProject None w =
  (Normal (Some (storeName (uuid_at (uuid_count w)))),
   added (storeName (uuid_at (uuid_count w))) (set_uuid_count (S (uuid_count w)) w)).
Proof. intros E. unfold addNewProject, bind, gets; simpl. rewrite E. reflexivity. Qed.

Lemma wf_made name w : wf w -> wf (made name w).
Proof.
  unfold wf. intros H. eapply Forall_impl; [exact H|].
  intros k Hk. simpl. by apply made_keeps_states.
Qed.

Lemma wf_added name w : wf w -> wf (added name w).
Proof.
  intros H. unfold wf, added; simpl. apply Forall_app. split.
  - apply (wf_made name w H).
  - constructor; [apply made_has_state | constructor].
Qed.

(** ** The sort: a permutation, ascending, and stable *)

Lemma sort_insert_perm {A} (key : A -> Z) x l :
  Permutation (sort_insert key x l) (x :: l).
Proof.
  induction l as [|y r IH]; simpl; [reflexivity|].
  destruct (key x <=? key y); [reflexivity|].
  rewrite IH. apply perm_swap.
Qed.

Lemma sortBy_perm {A} (l : list A) key : Permutation (sortBy l key) l.
Proof.
  induction l as [|x r IH]; simpl; [reflexivity|].
  unfold sortBy in *; simpl. rewrite sort_insert_perm. by constructor.
Qed.

Lemma sort_insert_sorted {A} (key : A -> Z) x l :
  StronglySorted (fun a b => key a <= key b) l ->
  StronglySorted (fun a b => key a <= key b) (sort_insert key x l).
Proof.
  induction 1 as [|y r Hr IH Hy]; simpl.
  - repeat constructor.
  - destruct (Z.leb_spec (key x) (key y)) as [Hle|Hgt].
    + constructor; [by constructor|].
      constructor; [exact Hle|].
      eapply Forall_impl; [exact Hy|]. simpl; intros; lia.
    + constructor; [exact IH|].
      eapply Permutation_Forall.
      * symmetry. apply sort_insert_perm.
      * constructor; [lia | exact Hy].
Qed.

Lemma sortBy_sorted {A} (l : list A) key :
  StronglySorted (fun a b => key a <= key b) (sortBy l key).
Proof.
  induction l as [|x r IH]; unfold sortBy in *; simpl.
  - constructor.
  - by apply sort_insert_sorted.
Qed.

(** Elements with the same key come out in the order they went in. *)
Lemma sort_insert_stable {A} (key : A -> Z) v x l :
  List.filter (fun a => key a =? v) (sort_insert key x l) =
  List.filter (fun a => key a =? v) (x :: l).
Proof.
  induction l as [|y r IH]; [reflexivity|].
  cbn [sort_insert].
  destruct (Z.leb_spec (key x) (key y)) as [Hle|Hgt]; [reflexivity|].
  cbn [List.filter] in *. rewrite IH.
  destruct (Z.eqb_spec (key x) v) as [Hx|Hx], (Z.eqb_spec (key y) v) as [Hy|Hy];
    try reflexivity.
  lia.
Qed.

Lemma sortBy_stable {A} (l : list A) key v :
  List.filter (fun a => key a =? v) (sortBy l key) =
  List.filter (fun a => key a =? v) l.
Proof.
  induction l as [|x r IH]; [reflexivity|].
  unfold sortBy in *; cbn [foldr]. rewrite sort_insert_stable.
  cbn [List.filter]. by rewrite IH.
Qed.

(** ** Hydration *)

Lemma storeName_namespaced id : startsWith id namespace = true -> storeName id = id.
Proof. unfold storeName. by intros ->. Qed.

Lemma mapM_makeProjectStore keys w :
  Forall (fun key => startsWith key namespace = true) keys ->
  mapM (fun id => makeProjectStore (Some id)) keys w = (Normal keys, hydrated keys w).
Proof.
  intros H. revert w. induction H as [|key rest Hkey _ IH]; intros w; [reflexivity|].
  cbn [mapM]. unfold bind at 1. rewrite makeProjectStore_given, (storeName_namespaced _ Hkey).
  unfold bind at 1. rewrite IH. reflexivity.
Qed.

Lemma getPagesFromStorage_namespaced w :
  Forall (fun key => startsWith key namespace = true) (getPagesFromStorage w).
Proof.
  apply List.Forall_forall. intros key Hin.
  apply List.filter_In in Hin. tauto.
Qed.

Lemma hydrateFromStorage_eq w :
  hydrateFromStorage w =
  (Normal tt,
   let w' := hydrated (getPagesFromStorage w) w in
   set_projects (sortBy (getPagesFromStorage w) (sortKey w')) w').
Proof.
  unfold hydrateFromStorage, bind at 1, gets.
  unfold bind at 1. rewrite mapM_makeProjectStore by apply getPagesFromStorage_namespaced.
  reflexivity.
Qed.

Lemma hydrated_localStorage keys w : localStorage (hydrated keys w) = localStorage w.
Proof. revert w. induction keys as [|k r IH]; intros w; [reflexivity|]. simpl. by rewrite IH. Qed.

Lemma hydrated_keeps keys w k st :
  getItem k (localStorage w) = Some st ->
  pinia w !! k = Some st ->
  pinia (hydrated keys w) !! k = Some st.
Proof.
  revert w. induction keys as [|k0 r IH]; intros w Hget Hw; [exact Hw|].
  simpl. apply IH; [exact Hget|].
  destruct (decide (k = k0)) as [->|Hne].
  - by apply made_stored.
  - by rewrite made_other.
Qed.

Lemma hydrated_stored keys w k st :
  In k keys ->
  getItem k (localStorage w) = Some st ->
  pinia (hydrated keys w) !! k = Some st.
Proof.
  revert w. induction keys as [|k0 r IH]; intros w Hin Hget; [destruct Hin|].
  simpl. destruct (decide (k = k0)) as [->|Hne].
  - apply hydrated_keeps; [exact Hget | by apply made_stored].
  - destruct Hin as [->|Hin]; [congruence|]. by apply IH.
Qed.

Lemma getItem_key k items : In k (List.map fst items) -> is_Some (getItem k items).
Proof.
  induction items as [|[k' v] r IH]; simpl; [tauto|].
  intros [->|Hin].
  - rewrite String.eqb_refl. eauto.
  - destruct (String.eqb k k'); eauto.
Qed.

Lemma hydrated_pages w :
  Forall (fun key => pinia (hydrated (getPagesFromStorage w) w) !! key =
                     getItem key (localStorage w)
                     /\ is_Some (getItem key (localStorage w)))
         (getPagesFromStorage w).
Proof.
  apply List.Forall_forall. intros key Hin.
  assert (Hs : is_Some (getItem key (localStorage w))).
  { apply getItem_key. apply List.filter_In in Hin. tauto. }
  split; [|exact Hs]. destruct Hs as [st Hst]. rewrite Hst.
  by apply hydrated_stored.
Qed.

(** What hydration leaves behind. *)
Lemma hydrateFromStorage_result (w : World) :
  let w' := snd (hydrateFromStorage w) in
  Permutation (projects w') (getPagesFromStorage w)
  /\ Forall (fun key => pinia w' !! key = getItem key (localStorage w)
                        /\ is_Some (getItem key (localStorage w)))
            (projects w')
  /\ StronglySorted (fun a b => sortKey w' a <= sortKey w' b) (projects w').
Proof.
  cbn zeta. rewrite hydrateFromStorage_eq. cbn [fst snd].
  split; [apply sortBy_perm|].
  split; [|apply sortBy_sorted].
  eapply Permutation_Forall; [symmetry; apply sortBy_perm|]. apply hydrated_pages.
Qed.

Lemma getItem_Some_key k items st :
  getItem k items = Some st -> In k (List.map fst items).
Proof.
  induction items as [|[k' v] r IH]; cbn [getItem List.map fst]; [discriminate|].
  destruct (String.eqb k k') eqn:E.
  - apply String.eqb_eq in E. intros _. by left.
  - intros H. right. by apply IH.
Qed.

(** C9: for every id, [makeProjectStore] registers the store under [id]
    itself when [id] starts with "pages/" and under "pages/" + id
    otherwise; the registered name is namespaced and feeding it back in
    yields the same name (no second prefix).  So [hydrateFromStorage]
    recreates each stored project under exactly its original storage key:
    the collection it leaves is, up to order, the keys of local storage that
    start with "pages/"; every such key with its stored state is in the
    collection, as a store of that very name holding that state; and
    nothing else is. *)
Theorem makeProjectStore_registers_namespaced_key (id : string) (w : World) :
  let name := if startsWith id namespace then id else namespace +:+ id in
  let wh := snd (hydrateFromStorage w) in
  fst (makeProjectStore (Some id) w) = Normal name
  /\ is_Some (pinia (snd (makeProjectStore (Some id) w)) !! name)
  /\ startsWith name namespace = true
  /\ fst (makeProjectStore (Some name) w) = Normal name
  /\ fst (hydrateFromStorage w) = Normal tt
  /\ Permutation (projects wh)
                 (List.filter (fun key => String.prefix "pages/" key)
                              (List.map fst (localStorage w)))
  /\ (forall (key : string) (st : ProjectState),
        getItem key (localStorage w) = Some st ->
        String.prefix "pages/" key = true ->
        key ∈ projects wh
        /\ pinia wh !! key = Some st
        /\ fst (makeProjectStore (Some key) w) = Normal key)
  /\ (forall key : string,
        key ∈ projects wh ->
        String.prefix "pages/" key = true /\ is_Some (getItem key (localStorage w))).
Proof.
  cbn zeta. rewrite !makeProjectStore_given.
  assert (Hns : startsWith (if startsWith id namespace then id else namespace +:+ id)
                           namespace = true).
  { destruct (startsWith id namespace) eqn:E; [exact E|]. by destruct id. }
  assert (Hperm : Permutation (projects (snd (hydrateFromStorage w)))
                              (getPagesFromStorage w)).
  { rewrite hydrateFromStorage_eq. apply sortBy_perm. }
  assert (Hstates : Forall (fun key => pinia (snd (hydrateFromStorage w)) !! key =
                                       getItem key (localStorage w)
                                       /\ is_Some (getItem key (localStorage w)))
                           (projects (snd (hydrateFromStorage w)))).
  { rewrite hydrateFromStorage_eq. cbn zeta. cbn [snd].
    eapply Permutation_Forall; [symmetry; apply sortBy_perm|]. apply hydrated_pages. }
  rewrite Forall_forall in Hstates.
  split; [reflexivity|].
  split; [apply made_has_state|].
  split; [exact Hns|].
  split; [cbn [fst]; by rewrite (storeName_namespaced _ Hns)|].
  split; [by rewrite hydrateFromStorage_eq|].
  split; [exact Hperm|].
  split.
  - intros key st Hget Hprefix.
    assert (Hin : key ∈ projects (snd (hydrateFromStorage w))).
    { rewrite Hperm. apply list_elem_of_In, List.filter_In. split; [|exact Hprefix].
      by eapply getItem_Some_key. }
    split; [exact Hin|]. split.
    + destruct (Hstates key Hin) as [-> _]. exact Hget.
    + rewrite makeProjectStore_given. cbn [fst].
      by rewrite (storeName_namespaced key Hprefix).
  - intros key Hin. split.
    + rewrite Hperm in Hin. apply list_elem_of_In, List.filter_In in Hin. tauto.
    + by destruct (Hstates key Hin).
Qed.

(** C5 (amended): after [hydrateFromStorage] the collection holds one
    project per local-storage key with the "pages/" prefix, each with the
    state stored under its key, in ascending order of the single sort key
    [tab.order ?? tab.created_at]; projects with equal sort keys (so also
    with equal [tab.order]) keep the order in which local storage lists
    their keys. *)
Theorem hydrateFromStorage_sorts_stably (w : World) :
  let w' := snd (hydrateFromStorage w) in
  fst (hydrateFromStorage w) = Normal tt
  /\ Permutation (projects w') (getPagesFromStorage w)
  /\ Forall (fun key => pinia w' !! key = getItem key (localStorage w)
                        /\ is_Some (getItem key (localStorage w)))
            (projects w')
  /\ StronglySorted (fun a b => sortKey w' a <= sortKey w' b) (projects w')
  /\ (forall v : Z,
        List.filter (fun a => sortKey w' a =? v) (projects w') =
        List.filter (fun a => sortKey w' a =? v) (getPagesFromStorage w)).
Proof.
  cbn zeta. rewrite hydrateFromStorage_eq. cbn [fst snd].
  split; [reflexivity|].
  split; [apply sortBy_perm|].
  split.
  { eapply Permutation_Forall; [symmetry; apply sortBy_perm|]. apply hydrated_pages. }
  split; [apply sortBy_sorted|].
  intros v. apply sortBy_stable.
Qed.

Lemma StronglySorted_lookup_lt {A} (R : A -> A -> Prop) (l : list A) i j a b :
  StronglySorted R l -> (i < j)%nat -> l !! i = Some a -> l !! j = Some b -> R a b.
Proof.
  intros Hs. revert i j. induction Hs as [|x r Hr IH Hx]; intros i j Hij Hi Hj; [done|].
  destruct j as [|j]; [lia|]. destruct i as [|i].
  - injection Hi as ->. rewrite Forall_forall in Hx. apply Hx.
    by eapply list_elem_of_lookup_2.
  - apply (IH i j); [lia | exact Hi | exact Hj].
Qed.

(** Where no two stored projects share a sort key, the hydrated collection
    is in the order the specification describes: only ties tell the two
    apart. *)
Lemma hydrateFromStorage_spec_order_without_ties (w : World) :
  let w' := snd (hydrateFromStorage w) in
  (forall a b, a ∈ projects w' -> b ∈ projects w' -> a <> b ->
               sortKey w' a <> sortKey w' b) ->
  spec_hydrated_order w'.
Proof.
  cbn zeta. intros Hties i j a b sa sb Hij Hi Hj Ha Hb.
  destruct (hydrateFromStorage_result w) as (_ & _ & Hsorted).
  pose proof (StronglySorted_lookup_lt _ _ _ _ _ _ Hsorted Hij Hi Hj) as Hle.
  cbn beta in Hle.
  destruct (decide (a = b)) as [->|Hne].
  - assert (sa = sb) as -> by congruence. right. split; [reflexivity|lia].
  - specialize (Hties a b (list_elem_of_lookup_2 _ _ _ Hi) (list_elem_of_lookup_2 _ _ _ Hj) Hne).
    unfold sortKey in Hle, Hties. rewrite Ha, Hb in Hle, Hties.
    left. cbn zeta. lia.
Qed.

(** ** Creating and deleting *)

(** C2: on a non-desktop build with two or more projects [addNewProject]
    returns no project, appends exactly one alert and leaves the
    collection and the stores as they were; on a desktop build it always
    creates the project. *)
Theorem addNewProject_plan_limit (w : World) (id : option string) :
  (isDesktop w = false -> (2 <= length (projects w))%nat ->
   let w' := snd (addNewProject id w) in
   fst (addNewProject id w) = Normal None
   /\ alerts w' = (alerts w ++ [limit_alert])%list
   /\ projects w' = projects w
   /\ pinia w' = pinia w)
  /\ (isDesktop w = true ->
      let w' := snd (addNewProject id w) in
      exists name,
        fst (addNewProject id w) = Normal (Some name)
        /\ projects w' = (projects w ++ [name])%list
        /\ alerts w' = alerts w).
Proof.
  split.
  - intros Hd Hlen. cbn zeta.
    rewrite addNewProject_blocked; [by repeat split|].
    unfold canAddNewProject. rewrite Hd. simpl. apply Z.ltb_ge. lia.
  - intros Hd. cbn zeta.
    assert (Hcan : forall w0, isDesktop w0 = true -> canAddNewProject w0 = true).
    { intros w0 E. unfold canAddNewProject. by rewrite E. }
    destruct id as [id|].
    + rewrite addNewProject_given by auto. eexists. by repeat split.
    + rewrite addNewProject_fresh by auto. eexists. by repeat split.
Qed.

Lemma length_splice1 {A} (index : Z) (xs : list A) :
  (length (splice1 index xs) <= length xs <= S (length (splice1 index xs)))%nat.
Proof.
  unfold splice1. rewrite length_app, length_take, length_drop. lia.
Qed.

Lemma deleteProject_eq project index w :
  deleteProject project index w =
  let w2 := set_projects (splice1 index (projects w))
              (set_localStorage (removeItem project (localStorage w)) w) in
  (Normal tt,
   match splice1 index (projects w) with
   | [] => added (storeName (uuid_at (uuid_count w)))
                 (set_uuid_count (S (uuid_count w)) w2)
   | first :: _ => set_currentTab (tab_id ∘ tab <$> pinia w !! first) w2
   end).
Proof.
  unfold deleteProject, clear, dispose, bind, modify, gets, ret.
  cbn [projects set_projects set_localStorage].
  destruct (splice1 index (projects w)) as [|first others] eqn:E; [|reflexivity].
  rewrite addNewProject_fresh.
  - reflexivity.
  - unfold canAddNewProject. cbn [projects set_projects length]. apply orb_true_r.
Qed.

Lemma deleteProject_length_positive project index w :
  (1 <= length (projects (snd (deleteProject project index w))))%nat.
Proof.
  rewrite deleteProject_eq. cbn zeta. cbn [snd].
  destruct (splice1 index (projects w)) as [|first others]; simpl; lia.
Qed.

(** C1: whatever the collection, [deleteProject] returns normally and
    leaves it non-empty; a collection of size 1 has size 1 afterwards, and
    when the removal empties the collection it then holds exactly the
    freshly created project. *)
Theorem deleteProject_leaves_collection_nonempty
        (w : World) (project : string) (index : Z) :
  let w' := snd (deleteProject project index w) in
  fst (deleteProject project index w) = Normal tt
  /\ (1 <= length (projects w'))%nat
  /\ (length (projects w) = 1%nat -> length (projects w') = 1%nat)
  /\ (splice1 index (projects w) = [] ->
      projects w' = [storeName (uuid_at (uuid_count w))]).
Proof.
  cbn zeta. rewrite deleteProject_eq. cbn [fst snd].
  pose proof (length_splice1 index (projects w)) as Hlen.
  destruct (splice1 index (projects w)) as [|first others]; cbn [length] in Hlen.
  - repeat split; simpl; auto.
  - repeat split; simpl; try lia. discriminate.
Qed.

(** ** Importing a file and instantiating a template *)

Lemma forEach_check_required data keys w :
  forEach (check_required data) keys w = (Normal tt, reported data keys w).
Proof.
  revert w. induction keys as [|key rest IH]; intros w.
  - unfold reported; destruct w; simpl. unfold ret, set_console, set_alerts; simpl.
    by rewrite !app_nil_r.
  - cbn [forEach]. unfold bind at 1, check_required, reported, missing_keys.
    cbn [List.filter]. destruct (has data key); cbn [negb].
    + unfold ret. rewrite IH. reflexivity.
    + unfold bind, emit_alert, console_error, modify. rewrite IH.
      unfold reported, missing_keys, set_console, set_alerts; destruct w; simpl.
      by rewrite <- !app_assoc.
Qed.

Lemma importNewProject_eq data rest w :
  importNewProject (mkFile (Some data) :: rest) w =
  match addNewProject None (reported data ["tab"; "page"; "settings"] w) with
  | (Normal (Some project), w2) => patch project (import_mutator data) w2
  | (Normal None, w2) => (Normal tt, w2)
  | (Thrown e, w2) => (Thrown e, w2)
  end.
Proof.
  unfold importNewProject. cbn [head]. unfold bind, response_json, ret.
  rewrite forEach_check_required.
  by destruct (addNewProject None _) as [[[project|]|e] w2].
Qed.

Lemma addProjectFromTemplate_eq template w :
  addProjectFromTemplate template w =
  match addNewProject None w with
  | (Normal (Some project), w2) => patch project (template_mutator template) w2
  | (Normal None, w2) => (Normal tt, w2)
  | (Thrown e, w2) => (Thrown e, w2)
  end.
Proof.
  unfold addProjectFromTemplate, cloneDeep, bind, ret.
  by destruct (addNewProject None w) as [[[project|]|e] w2].
Qed.

Lemma canAddNewProject_reported data keys w :
  canAddNewProject (reported data keys w) = canAddNewProject w.
Proof. reflexivity. Qed.

(** What a patch of the store just added leaves behind. *)
Lemma patch_added name mutator w :
  exists st,
    pinia (added name w) !! name = Some st
    /\ patch name mutator (added name w) =
       (fst (mutator st),
        set_pinia (<[name := snd (mutator st)]> (pinia (added name w))) (added name w)).
Proof.
  destruct (made_has_state name w) as [st Hst].
  exists st. split; [exact Hst|].
  unfold patch. change (pinia (added name w)) with (pinia (made name w)).
  rewrite Hst. by destruct (mutator st).
Qed.

Lemma has_false_own_field fields key :
  has (JObj fields) key = false -> own_field key fields = None.
Proof.
  unfold has. intros H. apply bool_decide_eq_false in H.
  destruct (own_field key fields); [exfalso; eauto | reflexivity].
Qed.

Lemma has_true_object data key :
  has data key = true -> exists fields v, data = JObj fields /\ own_field key fields = Some v.
Proof.
  destruct data; try discriminate. unfold has. intros H.
  apply bool_decide_eq_true in H. destruct H as [v Hv]. eauto.
Qed.

(** The first two assignments of the mutator always land, whatever
    happens at [data.tab.name]. *)
Lemma import_mutator_object fields st :
  page (snd (import_mutator (JObj fields) st)) = default JUndefined (own_field "page" fields)
  /\ settings (snd (import_mutator (JObj fields) st)) =
     default JUndefined (own_field "settings" fields).
Proof.
  unfold import_mutator, bind, lift, modify. cbn [get_prop].
  by destruct (get_prop (default JUndefined (own_field "tab" fields)) "name").
Qed.

Lemma import_mutator_tab_object fields tfields st :
  own_field "tab" fields = Some (JObj tfields) ->
  import_mutator (JObj fields) st =
  (Normal tt,
   with_tab (set_tab_name (default JUndefined (own_field "name" tfields)))
     (set_settings (default JUndefined (own_field "settings" fields))
        (set_page (default JUndefined (own_field "page" fields)) st))).
Proof.
  intros Ht. unfold import_mutator, bind, lift, modify. cbn [get_prop].
  rewrite Ht. reflexivity.
Qed.

Lemma import_mutator_no_tab fields st :
  own_field "tab" fields = None ->
  fst (import_mutator (JObj fields) st) =
  Thrown (TypeError "Cannot read properties of undefined (reading 'name')").
Proof.
  intros Ht. unfold import_mutator, bind, lift, modify. cbn [get_prop].
  rewrite Ht. reflexivity.
Qed.

Lemma own_field_set_field k v fields : own_field k (set_field k v fields) = Some v.
Proof.
  induction fields as [|[k' v'] rest IH]; simpl.
  - by rewrite String.eqb_refl.
  - destruct (String.eqb k k') eqn:E; simpl; rewrite ?String.eqb_refl, ?E; done.
Qed.

(** Below the plan limit the import makes a store, appends it and runs
    the mutator on its state. *)
Lemma importNewProject_allowed data rest w :
  canAddNewProject w = true ->
  let name := storeName (uuid_at (uuid_count w)) in
  let w2 := added name (set_uuid_count (S (uuid_count w))
                          (reported data ["tab"; "page"; "settings"] w)) in
  exists st,
    pinia w2 !! name = Some st
    /\ importNewProject (mkFile (Some data) :: rest) w =
       (fst (import_mutator data st),
        set_pinia (<[name := snd (import_mutator data st)]> (pinia w2)) w2).
Proof.
  intros Hcan. cbn zeta. rewrite importNewProject_eq.
  rewrite addNewProject_fresh by exact Hcan.
  change (uuid_count (reported data ["tab"; "page"; "settings"] w)) with (uuid_count w).
  apply patch_added.
Qed.

Lemma addProjectFromTemplate_allowed template w :
  canAddNewProject w = true ->
  let name := storeName (uuid_at (uuid_count w)) in
  let w2 := added name (set_uuid_count (S (uuid_count w)) w) in
  exists st,
    pinia w2 !! name = Some st
    /\ addProjectFromTemplate template w =
       (fst (template_mutator template st),
        set_pinia (<[name := snd (template_mutator template st)]> (pinia w2)) w2).
Proof.
  intros Hcan. cbn zeta. rewrite addProjectFromTemplate_eq.
  rewrite addNewProject_fresh by exact Hcan.
  apply patch_added.
Qed.

(** C8: when the picker was closed without a file, [importNewProject]
    returns normally and the world (collection, stores, alerts, console)
    is what it was. *)
Theorem importNewProject_without_file_is_noop (w : World) :
  importNewProject [] w = (Normal tt, w).
Proof. reflexivity. Qed.

(** C10: with the plan limit reached, [importNewProject] on a parsed file
    and [addProjectFromTemplate] both return normally, emit the plan-limit
    alert (the import after one alert per missing required key), add no
    project and change no store state. *)
Theorem plan_limit_skips_patch (w : World) (data template : JsVal) (rest : list File) :
  canAddNewProject w = false ->
  let wi := snd (importNewProject (mkFile (Some data) :: rest) w) in
  let wt := snd (addProjectFromTemplate template w) in
  fst (importNewProject (mkFile (Some data) :: rest) w) = Normal tt
  /\ alerts wi =
     (alerts w
      ++ List.map (fun _ => missing_alert) (missing_keys data ["tab"; "page"; "settings"])
      ++ [limit_alert])%list
  /\ projects wi = projects w
  /\ pinia wi = pinia w
  /\ fst (addProjectFromTemplate template w) = Normal tt
  /\ alerts wt = (alerts w ++ [limit_alert])%list
  /\ projects wt = projects w
  /\ pinia wt = pinia w.
Proof.
  intros Hcan. cbn zeta.
  rewrite importNewProject_eq, addProjectFromTemplate_eq.
  rewrite !addNewProject_blocked by (rewrite ?canAddNewProject_reported; exact Hcan).
  cbn [fst snd]. repeat split.
  unfold reported; simpl. by rewrite <- app_assoc.
Qed.

(** C7: a file with [tab] and [page] but without [settings], imported
    below the plan limit, appends a newly made project to the collection
    and emits exactly one alert (and one console line, for [settings]);
    the project has the file's page and no settings. *)
Theorem importNewProject_missing_settings_still_creates
        (w : World) (data : JsVal) (rest : list File) :
  has data "tab" = true ->
  has data "page" = true ->
  has data "settings" = false ->
  canAddNewProject w = true ->
  let w' := snd (importNewProject (mkFile (Some data) :: rest) w) in
  let name := storeName (uuid_at (uuid_count w)) in
  projects w' = (projects w ++ [name])%list
  /\ alerts w' = (alerts w ++ [missing_alert])%list
  /\ console w' = (console w ++ [missing_log "settings"])%list
  /\ exists st, pinia w' !! name = Some st
                /\ Normal (page st) = get_prop data "page"
                /\ settings st = JUndefined.
Proof.
  intros Htab Hpage Hset Hcan. cbn zeta.
  destruct (has_true_object _ _ Htab) as (fields & t & -> & Ht).
  destruct (importNewProject_allowed (JObj fields) rest w Hcan) as (st & _ & ->).
  cbn [snd]. unfold reported, missing_keys. cbn [List.filter].
  rewrite Htab, Hpage, Hset. cbn [negb List.map].
  repeat split.
  eexists. split; [apply lookup_insert_eq|].
  destruct (import_mutator_object fields st) as [-> ->].
  by rewrite (has_false_own_field _ _ Hset).
Qed.

(** C3 (what the code does): a file whose [page.orientation] is
    "portrait" or "landscape", imported below the plan limit, yields a new
    project whose page is the file's page, orientation unchanged and so
    not "left". *)
Theorem importNewProject_keeps_legacy_orientation
        (w : World) (fields pfields : list (string * JsVal)) (o : string)
        (rest : list File) :
  canAddNewProject w = true ->
  own_field "page" fields = Some (JObj pfields) ->
  own_field "orientation" pfields = Some (JStr o) ->
  o = "portrait" \/ o = "landscape" ->
  let w' := snd (importNewProject (mkFile (Some (JObj fields)) :: rest) w) in
  let name := storeName (uuid_at (uuid_count w)) in
  projects w' = (projects w ++ [name])%list
  /\ exists st, pinia w' !! name = Some st
                /\ page st = JObj pfields
                /\ get_prop (page st) "orientation" = Normal (JStr o)
                /\ JStr o <> JStr "left".
Proof.
  intros Hcan Hpage Ho Hlegacy. cbn zeta.
  destruct (importNewProject_allowed (JObj fields) rest w Hcan) as (st & _ & ->).
  cbn [snd]. split; [reflexivity|].
  eexists. split; [apply lookup_insert_eq|].
  destruct (import_mutator_object fields st) as [-> _].
  rewrite Hpage. cbn [default from_option id get_prop]. rewrite Ho.
  repeat split. destruct Hlegacy as [-> | ->]; discriminate.
Qed.

(** The sibling path: the same data given as a template comes out with
    orientation "left". *)
Lemma addProjectFromTemplate_ports_orientation
      (w : World) (fields pfields tfields : list (string * JsVal)) (o : string) :
  canAddNewProject w = true ->
  own_field "tab" fields = Some (JObj tfields) ->
  own_field "page" fields = Some (JObj pfields) ->
  own_field "orientation" pfields = Some (JStr o) ->
  o = "portrait" \/ o = "landscape" ->
  let w' := snd (addProjectFromTemplate (JObj fields) w) in
  let name := storeName (uuid_at (uuid_count w)) in
  fst (addProjectFromTemplate (JObj fields) w) = Normal tt
  /\ projects w' = (projects w ++ [name])%list
  /\ exists st, pinia w' !! name = Some st
                /\ get_prop (page st) "orientation" = Normal (JStr "left").
Proof.
  intros Hcan Htab Hpage Ho Hlegacy. cbn zeta.
  destruct (addProjectFromTemplate_allowed (JObj fields) w Hcan) as (st & _ & Heq).
  rewrite Heq. clear Heq.
  assert (Hm : template_mutator (JObj fields) st =
               (Normal tt,
                set_page (JObj (set_field "orientation" (JStr "left") pfields))
                  (with_tab (set_tab_name (default JUndefined (own_field "name" tfields)))
                     (set_settings (default JUndefined (own_field "settings" fields))
                        (set_page (JObj pfields) st))))).
  { unfold template_mutator, bind at 1.
    rewrite (import_mutator_tab_object _ _ _ Htab), Hpage.
    unfold bind, gets, lift, modify.
    cbn [page default from_option id set_page with_tab set_settings get_prop].
    rewrite Ho. cbn [default from_option id].
    by destruct Hlegacy as [-> | ->]. }
  rewrite Hm. cbn [fst snd]. repeat split.
  eexists. split; [apply lookup_insert_eq|].
  cbn [page set_page get_prop]. by rewrite own_field_set_field.
Qed.

(** C4 (what the code does): a parsed object without the [tab] key,
    imported below the plan limit, is reported by an alert and a console
    line, a project is appended, and then the import throws a TypeError
    out of the patch, at [data.tab.name]. *)
Theorem importNewProject_missing_tab_throws
        (w : World) (fields : list (string * JsVal)) (rest : list File) :
  canAddNewProject w = true ->
  own_field "tab" fields = None ->
  let r := importNewProject (mkFile (Some (JObj fields)) :: rest) w in
  fst r = Thrown (TypeError "Cannot read properties of undefined (reading 'name')")
  /\ projects (snd r) = (projects w ++ [storeName (uuid_at (uuid_count w))])%list
  /\ exists more, alerts (snd r) = (alerts w ++ missing_alert :: more)%list.
Proof.
  intros Hcan Htab. cbn zeta.
  destruct (importNewProject_allowed (JObj fields) rest w Hcan) as (st & _ & ->).
  cbn [fst snd]. split; [by apply import_mutator_no_tab|].
  split; [reflexivity|].
  unfold reported, missing_keys. cbn [List.filter has]. rewrite Htab.
  rewrite bool_decide_eq_false_2 by (intros [? ?]; discriminate).
  cbn [negb List.map]. eexists. reflexivity.
Qed.

(** When [tab] is an object the import returns normally. *)
Lemma importNewProject_returns_with_tab_object
      (w : World) (fields tfields : list (string * JsVal)) (rest : list File) :
  own_field "tab" fields = Some (JObj tfields) ->
  fst (importNewProject (mkFile (Some (JObj fields)) :: rest) w) = Normal tt.
Proof.
  intros Htab. rewrite importNewProject_eq.
  destruct (canAddNewProject w) eqn:Hcan.
  - destruct (importNewProject_allowed (JObj fields) rest w Hcan) as (st & _ & Heq).
    rewrite importNewProject_eq in Heq. rewrite Heq.
    by rewrite (import_mutator_tab_object _ _ _ Htab).
  - by rewrite addNewProject_blocked.
Qed.

(** ** Renumbering the tabs *)

Lemma patch_modify store f w :
  patch store (modify f) w = (Normal tt, set_pinia (alter f store (pinia w)) w).
Proof.
  unfold patch, modify. destruct (pinia w !! store) as [st|] eqn:E.
  - f_equal. f_equal. apply map_eq. intros k.
    rewrite lookup_insert, lookup_alter. case_decide; [subst; by rewrite E | done].
  - rewrite alter_id' by exact E. by destruct w.
Qed.

Lemma mapM_index_patch ps index w :
  exists units,
    mapM_index (fun project index => patch project (modify (set_order index))) index ps w =
    (Normal units, set_pinia (renumbered index ps (pinia w)) w).
Proof.
  revert index w. induction ps as [|project rest IH]; intros index w.
  - exists []. by destruct w.
  - cbn [mapM_index]. unfold bind at 1. rewrite patch_modify.
    destruct (IH (index + 1) (set_pinia (alter (set_order index) project (pinia w)) w))
      as [units Hu].
    exists (tt :: units). unfold bind at 1. rewrite Hu. reflexivity.
Qed.

Lemma syncTabOrder_eq w :
  syncTabOrder w = (Normal tt, set_pinia (renumbered 0 (projects w) (pinia w)) w).
Proof.
  unfold syncTabOrder, bind at 1, gets.
  destruct (mapM_index_patch (projects w) 0 w) as [units Hu].
  unfold set_order in Hu. unfold bind. by rewrite Hu.
Qed.

Lemma renumbered_absent ps index m project :
  project ∉ ps -> renumbered index ps m !! project = m !! project.
Proof.
  revert index m. induction ps as [|q rest IH]; intros index m Hnot; [reflexivity|].
  apply not_elem_of_cons in Hnot as [Hne Hrest]. cbn [renumbered].
  rewrite IH by exact Hrest. by rewrite lookup_alter_ne.
Qed.

Lemma set_order_twice i j (o : option ProjectState) :
  set_order j <$> (set_order i <$> o) = set_order j <$> o.
Proof. by destruct o. Qed.

(** A store gets the position of its last occurrence. *)
Lemma renumbered_last ps index m n project :
  ps !! n = Some project ->
  (forall j, (n < j)%nat -> ps !! j <> Some project) ->
  renumbered index ps m !! project = set_order (index + Z.of_nat n) <$> m !! project.
Proof.
  revert index m n. induction ps as [|q rest IH]; intros index m n Hn Hlast; [done|].
  cbn [renumbered]. destruct n as [|n].
  - injection Hn as ->.
    rewrite renumbered_absent.
    + rewrite lookup_alter_eq. do 2 f_equal. lia.
    + intros Hin. apply list_elem_of_lookup in Hin as [j Hj].
      apply (Hlast (S j)); [lia | exact Hj].
  - rewrite (IH (index + 1) _ n).
    + rewrite lookup_alter. case_decide.
      * subst q. rewrite set_order_twice. do 2 f_equal. lia.
      * do 2 f_equal. lia.
    + exact Hn.
    + intros j Hj. apply (Hlast (S j)). lia.
Qed.

(** C6 (amended): after the body of [syncTabOrder] has run the collection
    is unchanged and a project's [tab.order] is the index of its last
    occurrence in the collection; so in a collection of distinct stores
    every project's [tab.order] is the index at which it sits, and for the
    collection [B, A] of two different projects [A.tab.order = 1] and
    [B.tab.order = 0]. *)
Theorem syncTabOrder_writes_last_positions (w : World) :
  wf w ->
  let w' := snd (syncTabOrder w) in
  fst (syncTabOrder w) = Normal tt
  /\ projects w' = projects w
  /\ (forall (i : nat) (project : string),
        projects w !! i = Some project ->
        (forall j : nat, (i < j)%nat -> projects w !! j <> Some project) ->
        tab_order ∘ tab <$> pinia w' !! project = Some (Some (Z.of_nat i)))
  /\ (NoDup (projects w) -> spec_orders_are_positions w')
  /\ (forall A B : string,
        A <> B ->
        projects w = [B; A] ->
        tab_order ∘ tab <$> pinia w' !! A = Some (Some 1)
        /\ tab_order ∘ tab <$> pinia w' !! B = Some (Some 0)).
Proof.
  intros Hwf. cbn zeta. rewrite syncTabOrder_eq. cbn [fst snd].
  assert (Hlast : forall (i : nat) (project : string),
             projects w !! i = Some project ->
             (forall j : nat, (i < j)%nat -> projects w !! j <> Some project) ->
             tab_order ∘ tab <$> renumbered 0 (projects w) (pinia w) !! project =
             Some (Some (Z.of_nat i))).
  { intros i project Hi Hlater.
    rewrite (renumbered_last _ _ _ i project Hi Hlater).
    unfold wf in Hwf. rewrite Forall_forall in Hwf.
    destruct (Hwf project) as [st Hst]; [by eapply list_elem_of_lookup_2|].
    rewrite Hst. reflexivity. }
  split; [reflexivity|]. split; [reflexivity|]. split; [exact Hlast|]. split.
  - intros Hnd i project Hi. cbn [projects set_pinia] in Hi. apply Hlast; [exact Hi|].
    intros j Hj Hj'. pose proof (NoDup_lookup _ _ _ _ Hnd Hi Hj'). lia.
  - intros A B Hne HBA. cbn [pinia set_pinia]. split.
    + apply (Hlast 1%nat); rewrite HBA; [reflexivity|].
      intros [|[|j]] Hj; [lia|lia|done].
    + apply (Hlast 0%nat); rewrite HBA; [reflexivity|].
      intros [|[|j]] Hj; [lia| |done]. cbn. congruence.
Qed.

(** ** Every operation keeps the world well formed *)

Lemma wf_patch store mutator w : wf w -> wf (snd (patch store mutator w)).
Proof.
  unfold wf, patch. intros H.
  destruct (pinia w !! store) as [st|] eqn:E; [|exact H].
  destruct (mutator st) as [r st']. cbn [snd projects pinia set_pinia].
  eapply Forall_impl; [exact H|]. intros k Hk. cbn beta.
  rewrite lookup_insert. by case_decide.
Qed.

Lemma wf_addNewProject id w : wf w -> wf (snd (addNewProject id w)).
Proof.
  intros H. destruct (canAddNewProject w) eqn:Hcan.
  - destruct id as [id|].
    + rewrite addNewProject_given by exact Hcan. by apply wf_added.
    + rewrite addNewProject_fresh by exact Hcan. by apply wf_added.
  - rewrite addNewProject_blocked by exact Hcan. exact H.
Qed.

Lemma wf_importNewProject files w : wf w -> wf (snd (importNewProject files w)).
Proof.
  intros H. destruct files as [|[[data|]] rest]; [exact H| |exact H].
  rewrite importNewProject_eq.
  pose proof (wf_addNewProject None (reported data ["tab"; "page"; "settings"] w) H) as H2.
  destruct (addNewProject None _) as [[[project|]|e] w2]; cbn [snd] in *; auto.
  by apply wf_patch.
Qed.

Lemma wf_addProjectFromTemplate template w :
  wf w -> wf (snd (addProjectFromTemplate template w)).
Proof.
  intros H. rewrite addProjectFromTemplate_eq.
  pose proof (wf_addNewProject None w H) as H2.
  destruct (addNewProject None w) as [[[project|]|e] w2]; cbn [snd] in *; auto.
  by apply wf_patch.
Qed.

Lemma splice1_sublist {A} (index : Z) (xs : list A) (P : A -> Prop) :
  Forall P xs -> Forall P (splice1 index xs).
Proof.
  intros H. unfold splice1. apply Forall_app. split.
  - by apply Forall_take.
  - by apply Forall_drop.
Qed.

Lemma wf_deleteProject project index w :
  wf w -> wf (snd (deleteProject project index w)).
Proof.
  intros H. rewrite deleteProject_eq. cbn zeta. cbn [snd].
  pose proof (splice1_sublist index _ _ H) as Hs.
  destruct (splice1 index (projects w)) as [|first others] eqn:E.
  - apply wf_added. constructor.
  - exact Hs.
Qed.

Lemma wf_hydrateFromStorage w : wf (snd (hydrateFromStorage w)).
Proof.
  destruct (hydrateFromStorage_result w) as (_ & Hst & _).
  unfold wf. eapply Forall_impl; [exact Hst|].
  intros key [-> Hs]. exact Hs.
Qed.

Lemma renumbered_keeps_states ps index m (held : list string) :
  Forall (fun k => is_Some (m !! k)) held ->
  Forall (fun k => is_Some (renumbered index ps m !! k)) held.
Proof.
  revert index m. induction ps as [|q rest IH]; intros index m Hm; [exact Hm|].
  cbn [renumbered]. apply IH. eapply Forall_impl; [exact Hm|].
  intros k Hk. cbn beta. by apply lookup_alter_is_Some.
Qed.

Lemma wf_syncTabOrder w : wf w -> wf (snd (syncTabOrder w)).
Proof.
  intros H. rewrite syncTabOrder_eq. by apply renumbered_keeps_states.
Qed.

Lemma wf_serve r w : wf w -> wf (serve r w).
Proof.
  intros H. destruct r; cbn [serve].
  - by apply wf_addNewProject.
  - by apply wf_importNewProject.
  - by apply wf_addProjectFromTemplate.
  - by apply wf_deleteProject.
  - apply wf_hydrateFromStorage.
  - by apply wf_syncTabOrder.
Qed.

(** From an empty collection, whatever is asked, every store in the
    collection has a state. *)
Lemma wf_serve_all rs w : projects w = [] -> wf (serve_all rs w).
Proof.
  intros Hempty. assert (H : wf w) by (unfold wf; rewrite Hempty; constructor).
  clear Hempty. revert w H. induction rs as [|r rest IH]; intros w H; [exact H|].
  cbn [serve_all foldl]. apply IH. by apply wf_serve.
Qed.

(** After a deletion has been served the collection is not empty. *)
Lemma serve_delete_nonempty project index w :
  projects (serve (DeleteProject project index) w) <> [].
Proof.
  cbn [serve].
  pose proof (deleteProject_length_positive project index w) as Hlen.
  intros E. rewrite E in Hlen. cbn in Hlen. lia.
Qed.

(** Distinct storage keys make a collection of distinct stores. *)
Lemma hydrateFromStorage_distinct w :
  NoDup (List.map fst (localStorage w)) -> NoDup (projects (snd (hydrateFromStorage w))).
Proof.
  intros H. destruct (hydrateFromStorage_result w) as (Hp & _).
  rewrite Hp. unfold getPagesFromStorage.
  apply NoDup_ListNoDup, List.NoDup_filter, NoDup_ListNoDup, H.
Qed.

(** ** Looking a project up, and what a deletion leaves *)

Lemma find_first_match {A} (f : A -> bool) (l : list A) :
  match List.find f l with
  | Some x =>
      exists i, l !! i = Some x /\ f x = true
                /\ forall j y, (j < i)%nat -> l !! j = Some y -> f y = false
  | None => forall y, y ∈ l -> f y = false
  end.
Proof.
  induction l as [|a r IH]; cbn [List.find].
  - intros y Hy. by apply elem_of_nil in Hy.
  - destruct (f a) eqn:Ha.
    + exists 0%nat. repeat split; [exact Ha|]. intros j y Hj. lia.
    + destruct (List.find f r) as [x|].
      * destruct IH as (i & Hi & Hx & Hbefore). exists (S i). repeat split; [exact Hi|exact Hx|].
        intros [|j] y Hj Hy.
        -- injection Hy as <-. exact Ha.
        -- apply (Hbefore j); [lia|exact Hy].
      * intros y Hy. apply elem_of_cons in Hy as [->|Hy]; [exact Ha|by apply IH].
Qed.

(** X1: [findProjectByTabId] returns the first project of the collection
    whose tab id is the one asked for, and nothing exactly when no project
    of the collection has that tab id. *)
Theorem findProjectByTabId_first_match (tabId : string) (w : World) :
  match findProjectByTabId tabId w with
  | Some project =>
      exists (i : nat) (st : ProjectState),
        projects w !! i = Some project
        /\ pinia w !! project = Some st
        /\ tab_id (tab st) = tabId
        /\ forall (j : nat) (other : string) (so : ProjectState),
             (j < i)%nat -> projects w !! j = Some other ->
             pinia w !! other = Some so -> tab_id (tab so) <> tabId
  | None =>
      forall (other : string) (so : ProjectState),
        other ∈ projects w -> pinia w !! other = Some so -> tab_id (tab so) <> tabId
  end.
Proof.
  unfold findProjectByTabId.
  pose proof (find_first_match
                (fun project => match pinia w !! project with
                                | Some st => String.eqb (tab_id (tab st)) tabId
                                | None => false
                                end) (projects w)) as H.
  destruct (List.find _ (projects w)) as [project|].
  - destruct H as (i & Hi & Hm & Hbefore).
    destruct (pinia w !! project) as [st|] eqn:Hst; [|discriminate].
    exists i, st. repeat split; [exact Hi | by apply String.eqb_eq |].
    intros j other so Hj Hother Hso Heq.
    specialize (Hbefore j other Hj Hother). rewrite Hso in Hbefore.
    apply String.eqb_neq in Hbefore. contradiction.
  - intros other so Hin Hso Heq. specialize (H other Hin). rewrite Hso in H.
    apply String.eqb_neq in H. contradiction.
Qed.

(** X2: when a deletion leaves projects behind, the first of them becomes
    the current tab and [currentProject] is that project. *)
Theorem deleteProject_first_becomes_current
        (w : World) (project : string) (index : Z) (first : string) (others : list string) :
  wf w ->
  splice1 index (projects w) = first :: others ->
  let w' := snd (deleteProject project index w) in
  projects w' = first :: others
  /\ currentTab w' = (tab_id ∘ tab <$> pinia w !! first)
  /\ is_Some (currentTab w')
  /\ currentProject w' = Some first.
Proof.
  intros Hwf Hs. cbn zeta. rewrite deleteProject_eq. cbn zeta. rewrite Hs. cbn [snd].
  assert (Hfirst : is_Some (pinia w !! first)).
  { pose proof (splice1_sublist index _ _ Hwf) as H. rewrite Hs in H.
    by apply Forall_cons in H as [H _]. }
  destruct Hfirst as [st Hst].
  split; [reflexivity|]. split; [reflexivity|].
  unfold currentProject, findProjectByTabId. cbn [currentTab set_currentTab projects pinia
    set_projects set_localStorage].
  rewrite Hst. cbn [fmap option_fmap option_map]. split; [eauto|].
  cbn [List.find]. rewrite Hst. unfold compose. by rewrite String.eqb_refl.
Qed.

Lemma splice1_in_range {A} (index : Z) (xs : list A) :
  0 <= index < Z.of_nat (length xs) -> splice1 index xs = delete (Z.to_nat index) xs.
Proof.
  intros H. unfold splice1. rewrite delete_take_drop.
  destruct (Z.ltb_spec index 0); [lia|]. by rewrite Z.min_l by lia.
Qed.

Lemma splice1_past_end {A} (index : Z) (xs : list A) :
  Z.of_nat (length xs) <= index -> splice1 index xs = xs.
Proof.
  intros H. unfold splice1.
  destruct (Z.ltb_spec index 0); [lia|]. rewrite Z.min_r by lia. rewrite Nat2Z.id.
  rewrite take_ge, drop_ge by lia. apply app_nil_r.
Qed.

Lemma splice1_from_end {A} (index : Z) (xs : list A) :
  - Z.of_nat (length xs) <= index < 0 ->
  splice1 index xs = delete (Z.to_nat (Z.of_nat (length xs) + index)) xs.
Proof.
  intros H. unfold splice1. rewrite delete_take_drop.
  destruct (Z.ltb_spec index 0); [|lia]. by rewrite Z.max_l by lia.
Qed.

Lemma splice1_before_start {A} (index : Z) (xs : list A) :
  index < - Z.of_nat (length xs) -> splice1 index xs = drop 1 xs.
Proof.
  intros H. unfold splice1.
  destruct (Z.ltb_spec index 0); [|lia]. by rewrite Z.max_r by lia.
Qed.

Lemma deleteProject_projects project index w :
  projects (snd (deleteProject project index w)) =
  match splice1 index (projects w) with
  | [] => [storeName (uuid_at (uuid_count w))]
  | remaining => remaining
  end.
Proof.
  rewrite deleteProject_eq. cbn zeta. cbn [snd].
  by destruct (splice1 index (projects w)).
Qed.

(** X3: with two or more projects open, [deleteProject] removes the project
    at [index] when the index is in range, the one [-index] places from the
    end for a negative index down to minus the length, the first one below
    that, and none when [index] is the length or more: the [project]
    argument plays no part in which one leaves the collection. *)
Theorem deleteProject_removes_by_index (w : World) (project : string) (index : Z) :
  (2 <= length (projects w))%nat ->
  let w' := snd (deleteProject project index w) in
  let n := Z.of_nat (length (projects w)) in
  (0 <= index < n -> projects w' = delete (Z.to_nat index) (projects w))
  /\ (n <= index -> projects w' = projects w)
  /\ (- n <= index < 0 -> projects w' = delete (Z.to_nat (n + index)) (projects w))
  /\ (index < - n -> projects w' = drop 1 (projects w)).
Proof.
  intros Hlen. cbn zeta. rewrite deleteProject_projects.
  pose proof (length_splice1 index (projects w)) as Hs.
  destruct (splice1 index (projects w)) as [|first others] eqn:E; cbn [length] in Hs; [lia|].
  rewrite <- E. repeat split; intros H.
  - by apply splice1_in_range.
  - by apply splice1_past_end.
  - by apply splice1_from_end.
  - by apply splice1_before_start.
Qed.

(** ** Hydrating again, and what hydration leaves alone *)

Lemma set_pinia_same w : set_pinia (pinia w) w = w.
Proof. by destruct w. Qed.

Lemma made_fixed name w st :
  getItem name (localStorage w) = Some st -> pinia w !! name = Some st -> made name w = w.
Proof.
  intros Hget Hst. unfold made, load_state, ensure_state. rewrite Hst, Hget.
  rewrite insert_id by exact Hst. apply set_pinia_same.
Qed.

Lemma hydrated_fixed keys w :
  Forall (fun key => pinia w !! key = getItem key (localStorage w)
                     /\ is_Some (getItem key (localStorage w))) keys ->
  hydrated keys w = w.
Proof.
  induction 1 as [|key rest [Heq [st Hst]] _ IH]; [reflexivity|].
  cbn [hydrated foldl]. rewrite (made_fixed key w st) by congruence. exact IH.
Qed.

Lemma hydrated_set_projects keys ps w :
  hydrated keys (set_projects ps w) = set_projects ps (hydrated keys w).
Proof.
  revert w. induction keys as [|key rest IH]; intros w; [reflexivity|].
  cbn [hydrated foldl]. change (made key (set_projects ps w)) with (set_projects ps (made key w)).
  apply IH.
Qed.

Lemma hydrated_others keys w :
  isDesktop (hydrated keys w) = isDesktop w
  /\ projects (hydrated keys w) = projects w
  /\ alerts (hydrated keys w) = alerts w
  /\ console (hydrated keys w) = console w
  /\ currentTab (hydrated keys w) = currentTab w
  /\ uuid_count (hydrated keys w) = uuid_count w.
Proof.
  revert w. induction keys as [|key rest IH]; intros w; [by repeat split|].
  cbn [hydrated foldl]. destruct (IH (made key w)) as (H1 & H2 & H3 & H4 & H5 & H6).
  unfold hydrated in *. by rewrite H1, H2, H3, H4, H5, H6.
Qed.

Lemma hydrated_absent keys w k :
  k ∉ keys -> pinia (hydrated keys w) !! k = pinia w !! k.
Proof.
  revert w. induction keys as [|key rest IH]; intros w Hk; [reflexivity|].
  apply not_elem_of_cons in Hk as [Hne Hrest].
  cbn [hydrated foldl]. unfold hydrated in IH. rewrite IH by exact Hrest.
  by apply made_other.
Qed.

(** X5: hydrating a second time changes nothing: [hydrateFromStorage] run on
    the world it has just produced gives that same world. *)
Theorem hydrateFromStorage_twice (w : World) :
  hydrateFromStorage (snd (hydrateFromStorage w)) = hydrateFromStorage w.
Proof.
  rewrite (hydrateFromStorage_eq w). cbn zeta. cbn [snd].
  rewrite hydrateFromStorage_eq. cbn zeta.
  set (keys := getPagesFromStorage w).
  set (w1 := hydrated keys w).
  assert (Hkeys : getPagesFromStorage (set_projects (sortBy keys (sortKey w1)) w1) = keys).
  { unfold getPagesFromStorage, keys. cbn [localStorage set_projects].
    unfold w1. by rewrite hydrated_localStorage. }
  rewrite Hkeys, hydrated_set_projects.
  assert (Hfix : hydrated keys w1 = w1).
  { apply hydrated_fixed. unfold w1, keys. rewrite hydrated_localStorage.
    apply hydrated_pages. }
  rewrite Hfix. reflexivity.
Qed.

Lemma hydrateFromStorage_leaves_alone_aux (w : World) :
  localStorage (snd (hydrateFromStorage w)) = localStorage w
  /\ isDesktop (snd (hydrateFromStorage w)) = isDesktop w.
Proof.
  rewrite hydrateFromStorage_eq. cbn zeta. cbn [snd].
  destruct (hydrated_others (getPagesFromStorage w) w) as (H1 & _).
  split; [apply hydrated_localStorage | exact H1].
Qed.

(** X6: [hydrateFromStorage] restores one project per namespaced storage
    key whether or not the plan limit allows that many; it writes nothing
    to local storage, emits no alert, does not move the current tab, and
    leaves alone the state of every store that is not named by such a
    key. *)
Theorem hydrateFromStorage_leaves_alone (w : World) :
  let w' := snd (hydrateFromStorage w) in
  length (projects w') = length (getPagesFromStorage w)
  /\ localStorage w' = localStorage w
  /\ alerts w' = alerts w
  /\ console w' = console w
  /\ currentTab w' = currentTab w
  /\ isDesktop w' = isDesktop w
  /\ forall store : string,
       store ∉ getPagesFromStorage w -> pinia w' !! store = pinia w !! store.
Proof.
  cbn zeta. rewrite hydrateFromStorage_eq. cbn zeta. cbn [snd].
  destruct (hydrated_others (getPagesFromStorage w) w) as (H1 & _ & H3 & H4 & H5 & _).
  split; [apply Permutation_length, sortBy_perm|].
  split; [apply hydrated_localStorage|].
  repeat (split; [assumption|]).
  intros store Hstore. by apply hydrated_absent.
Qed.

(** ** Renumbering again, and what renumbering leaves alone *)

Lemma last_occurrence (ps : list string) (k : string) :
  k ∈ ps -> exists n, ps !! n = Some k /\ forall j, (n < j)%nat -> ps !! j <> Some k.
Proof.
  induction ps as [|q rest IH]; intros Hin; [by apply elem_of_nil in Hin|].
  destruct (decide (k ∈ rest)) as [Hrest|Hrest].
  - destruct (IH Hrest) as (n & Hn & Hlast). exists (S n). split; [exact Hn|].
    intros [|j] Hj; [lia|]. apply Hlast. lia.
  - apply elem_of_cons in Hin as [->|Hin]; [|contradiction].
    exists 0%nat. split; [reflexivity|].
    intros [|j] Hj Hq; [lia|]. apply Hrest. by eapply list_elem_of_lookup_2.
Qed.

Lemma renumbered_twice index ps m :
  renumbered index ps (renumbered index ps m) = renumbered index ps m.
Proof.
  apply map_eq. intros k. destruct (decide (k ∈ ps)) as [Hin|Hout].
  - destruct (last_occurrence ps k Hin) as (n & Hn & Hlast).
    rewrite !(renumbered_last ps index _ n k Hn Hlast). apply set_order_twice.
  - by rewrite !renumbered_absent.
Qed.

(** X7: renumbering a second time changes nothing: the body of
    [syncTabOrder] run on the world it has just produced gives that same
    world. *)
Theorem syncTabOrder_twice (w : World) :
  syncTabOrder (snd (syncTabOrder w)) = syncTabOrder w.
Proof.
  rewrite !syncTabOrder_eq. cbn [snd projects pinia set_pinia].
  rewrite renumbered_twice. reflexivity.
Qed.

Lemma renumbered_origin index ps m k st' :
  renumbered index ps m !! k = Some st' ->
  exists st o, m !! k = Some st /\ st' = with_tab (set_tab_order o) st.
Proof.
  revert index m. induction ps as [|q rest IH]; intros index m H.
  - exists st', (tab_order (tab st')). split; [exact H|]. by destruct st' as [[]].
  - cbn [renumbered] in H. destruct (IH _ _ H) as (st1 & o & H1 & ->).
    rewrite lookup_alter in H1. case_decide.
    + subst q. destruct (m !! k) as [st|]; [|discriminate].
      injection H1 as <-. by exists st, o.
    + by exists st1, o.
Qed.

(** X8: the body of [syncTabOrder] changes nothing in the stores but
    [tab.order]: every store keeps its page, its settings and its tab id,
    name and creation time, stores outside the collection are untouched,
    and so are the collection itself, the alerts and the current tab. *)
Theorem syncTabOrder_changes_only_order (w : World) :
  let w' := snd (syncTabOrder w) in
  projects w' = projects w
  /\ alerts w' = alerts w
  /\ currentTab w' = currentTab w
  /\ (forall store : string, store ∉ projects w -> pinia w' !! store = pinia w !! store)
  /\ (forall (store : string) (st' : ProjectState),
        pinia w' !! store = Some st' ->
        exists st, pinia w !! store = Some st
                   /\ page st' = page st
                   /\ settings st' = settings st
                   /\ tab_id (tab st') = tab_id (tab st)
                   /\ tab_name (tab st') = tab_name (tab st)
                   /\ tab_created_at (tab st') = tab_created_at (tab st)).
Proof.
  cbn zeta. rewrite syncTabOrder_eq. cbn [snd].
  repeat (split; [reflexivity|]).
  split.
  - intros store Hout. by apply renumbered_absent.
  - intros store st' H. destruct (renumbered_origin _ _ _ _ _ H) as (st & o & Hst & ->).
    exists st. by repeat split.
Qed.

(** ** What creating, importing and instantiating leave alone *)

Lemma patch_others store mutator w :
  let w' := snd (patch store mutator w) in
  isDesktop w' = isDesktop w
  /\ projects w' = projects w
  /\ localStorage w' = localStorage w
  /\ alerts w' = alerts w
  /\ console w' = console w
  /\ currentTab w' = currentTab w
  /\ forall k, k <> store -> pinia w' !! k = pinia w !! k.
Proof.
  cbn zeta. unfold patch. destruct (pinia w !! store) as [st|]; [|by repeat split].
  destruct (mutator st) as [r st']. cbn [snd]. repeat split.
  intros k Hk. cbn [pinia set_pinia]. by rewrite lookup_insert_ne.
Qed.

Lemma addNewProject_others id w :
  let w' := snd (addNewProject id w) in
  isDesktop w' = isDesktop w
  /\ localStorage w' = localStorage w
  /\ console w' = console w
  /\ projects w' = (if canAddNewProject w then (projects w ++ [new_name id w])%list else projects w)
  /\ alerts w' = (if canAddNewProject w then alerts w else (alerts w ++ [limit_alert])%list)
  /\ forall k, k <> new_name id w -> pinia w' !! k = pinia w !! k.
Proof.
  cbn zeta. destruct (canAddNewProject w) eqn:Hcan.
  - destruct id as [id|].
    + rewrite addNewProject_given by exact Hcan. cbn [snd]. repeat split.
      intros k Hk. by apply made_other.
    + rewrite addNewProject_fresh by exact Hcan. cbn [snd]. repeat split.
      intros k Hk.
      apply (made_other (storeName (uuid_at (uuid_count w)))
                        (set_uuid_count (S (uuid_count w)) w) k Hk).
  - rewrite addNewProject_blocked by exact Hcan. by repeat split.
Qed.

(** The shape shared by [importNewProject] and [addProjectFromTemplate]:
    add a project, then patch it if there is one. *)
Lemma add_then_patch_others (mutator : Eff ProjectState unit) (w : World) :
  let w' := snd (match addNewProject None w with
                 | (Normal (Some project), w2) => patch project mutator w2
                 | (Normal None, w2) => (Normal tt, w2)
                 | (Thrown e, w2) => (Thrown e, w2)
                 end) in
  isDesktop w' = isDesktop w
  /\ localStorage w' = localStorage w
  /\ console w' = console w
  /\ projects w' = (if canAddNewProject w then (projects w ++ [new_name None w])%list else projects w)
  /\ alerts w' = (if canAddNewProject w then alerts w else (alerts w ++ [limit_alert])%list)
  /\ forall k, k <> new_name None w -> pinia w' !! k = pinia w !! k.
Proof.
  cbn zeta. destruct (addNewProject_others None w) as (H1 & H2 & H3 & H4 & H5 & H6).
  destruct (canAddNewProject w) eqn:Hcan.
  - rewrite addNewProject_fresh in * by exact Hcan. cbn [snd] in *.
    destruct (patch_others (storeName (uuid_at (uuid_count w))) mutator
                (added (storeName (uuid_at (uuid_count w)))
                       (set_uuid_count (S (uuid_count w)) w)))
      as (P1 & P2 & P3 & P4 & P5 & _ & P7).
    cbn zeta in P1, P2, P3, P4, P5, P7.
    rewrite P1, P2, P3, P4, P5. repeat split; try assumption.
    intros k Hk. rewrite P7 by exact Hk. by apply H6.
  - rewrite addNewProject_blocked in * by exact Hcan. cbn [snd] in *. by repeat split.
Qed.

(** X9: importing and instantiating a template touch one store at most:
    whatever the files or the template, the projects already in the
    collection stay where they are with at most the new one appended, and
    the state of every store but the new one is what it was. *)
Theorem import_and_template_touch_only_the_new_store
        (w : World) (files : list File) (template : JsVal) :
  let name := storeName (uuid_at (uuid_count w)) in
  let wi := snd (importNewProject files w) in
  let wt := snd (addProjectFromTemplate template w) in
  ((projects wi = projects w \/ projects wi = (projects w ++ [name])%list)
   /\ forall store : string, store <> name -> pinia wi !! store = pinia w !! store)
  /\ ((projects wt = projects w \/ projects wt = (projects w ++ [name])%list)
      /\ forall store : string, store <> name -> pinia wt !! store = pinia w !! store).
Proof.
  cbn zeta. split.
  - destruct files as [|[[data|]] rest]; [by auto| |by auto].
    rewrite importNewProject_eq.
    destruct (add_then_patch_others (import_mutator data)
                (reported data ["tab"; "page"; "settings"] w))
      as (_ & _ & _ & H4 & _ & H6).
    cbn zeta in H4, H6. split; [|exact H6].
    rewrite H4. rewrite canAddNewProject_reported.
    destruct (canAddNewProject w); [right|left]; reflexivity.
  - rewrite addProjectFromTemplate_eq.
    destruct (add_then_patch_others (template_mutator template) w)
      as (_ & _ & _ & H4 & _ & H6).
    cbn zeta in H4, H6. split; [|exact H6].
    rewrite H4. destruct (canAddNewProject w); [right|left]; reflexivity.
Qed.

(** ** The plan limit as an invariant *)

Lemma serve_isDesktop r w : isDesktop (serve r w) = isDesktop w.
Proof.
  destruct r as [id|files|template|project index| |]; cbn [serve].
  - by destruct (addNewProject_others id w) as (H & _).
  - destruct files as [|[[data|]] rest]; [reflexivity| |reflexivity].
    rewrite importNewProject_eq.
    by destruct (add_then_patch_others (import_mutator data)
                   (reported data ["tab"; "page"; "settings"] w)) as (H & _).
  - rewrite addProjectFromTemplate_eq.
    by destruct (add_then_patch_others (template_mutator template) w) as (H & _).
  - rewrite deleteProject_eq. cbn zeta. cbn [snd].
    by destruct (splice1 index (projects w)).
  - by destruct (hydrateFromStorage_leaves_alone_aux w) as (_ & H).
  - by rewrite syncTabOrder_eq.
Qed.

Lemma canAddNewProject_browser w :
  isDesktop w = false ->
  canAddNewProject w = true -> (length (projects w) < 2)%nat.
Proof.
  unfold canAddNewProject. intros -> H. cbn [orb] in H. apply Z.ltb_lt in H. lia.
Qed.

Lemma serve_within_limit r w :
  isDesktop w = false ->
  r <> HydrateFromStorage ->
  (length (projects w) <= 2)%nat ->
  (length (projects (serve r w)) <= 2)%nat.
Proof.
  intros Hd Hr Hlen.
  destruct r as [id|files|template|project index| |]; cbn [serve]; [| | | |done|].
  - destruct (addNewProject_others id w) as (_ & _ & _ & H & _). cbn zeta in H. rewrite H.
    destruct (canAddNewProject w) eqn:Hcan; [|exact Hlen].
    pose proof (canAddNewProject_browser w Hd Hcan). rewrite length_app. simpl. lia.
  - destruct files as [|[[data|]] rest]; [exact Hlen| |exact Hlen].
    rewrite importNewProject_eq.
    destruct (add_then_patch_others (import_mutator data)
                (reported data ["tab"; "page"; "settings"] w)) as (_ & _ & _ & H & _).
    cbn zeta in H. rewrite H. rewrite canAddNewProject_reported.
    destruct (canAddNewProject w) eqn:Hcan; [|exact Hlen].
    pose proof (canAddNewProject_browser w Hd Hcan).
    rewrite length_app. cbn [projects reported set_console set_alerts]. simpl. lia.
  - rewrite addProjectFromTemplate_eq.
    destruct (add_then_patch_others (template_mutator template) w) as (_ & _ & _ & H & _).
    cbn zeta in H. rewrite H.
    destruct (canAddNewProject w) eqn:Hcan; [|exact Hlen].
    pose proof (canAddNewProject_browser w Hd Hcan). rewrite length_app. simpl. lia.
  - rewrite deleteProject_projects.
    pose proof (length_splice1 index (projects w)) as Hs.
    destruct (splice1 index (projects w)); cbn [length] in *; lia.
  - by rewrite syncTabOrder_eq.
Qed.

(** X10: on a browser build that holds two projects at most, no sequence
    of creations, imports, template instantiations, deletions and
    renumberings ever makes the collection hold more than two: only
    hydration can. *)
Theorem browser_collection_stays_within_limit (rs : list request) (w : World) :
  isDesktop w = false ->
  (length (projects w) <= 2)%nat ->
  Forall (fun r => r <> HydrateFromStorage) rs ->
  isDesktop (serve_all rs w) = false
  /\ (length (projects (serve_all rs w)) <= 2)%nat.
Proof.
  intros Hd Hlen Hrs. revert w Hd Hlen.
  induction Hrs as [|r rest Hr _ IH]; intros w Hd Hlen; [by split|].
  cbn [serve_all foldl]. apply IH.
  - by rewrite serve_isDesktop.
  - by apply serve_within_limit.
Qed.

(** ** What an import and a template write into the new project *)

(** X11: a file whose [tab] is an object, imported below the plan limit:
    the import returns normally, the new project is last in the collection
    and is the current tab, and its state is the one the store was made
    with except for [page], [settings] and [tab.name], which are the
    file's ([undefined] where the file has none). *)
Theorem importNewProject_overwrites_page_settings_name
        (w : World) (fields tfields : list (string * JsVal)) (rest : list File) :
  canAddNewProject w = true ->
  own_field "tab" fields = Some (JObj tfields) ->
  let name := storeName (uuid_at (uuid_count w)) in
  let w' := snd (importNewProject (mkFile (Some (JObj fields)) :: rest) w) in
  fst (importNewProject (mkFile (Some (JObj fields)) :: rest) w) = Normal tt
  /\ projects w' = (projects w ++ [name])%list
  /\ exists made_with : ProjectState,
      pinia (made name w) !! name = Some made_with
      /\ currentTab w' = Some (tab_id (tab made_with))
      /\ pinia w' !! name =
         Some (mkProjectState
                 (mkTab (tab_id (tab made_with))
                        (default JUndefined (own_field "name" tfields))
                        (tab_order (tab made_with))
                        (tab_created_at (tab made_with)))
                 (default JUndefined (own_field "page" fields))
                 (default JUndefined (own_field "settings" fields))).
Proof.
  intros Hcan Htab. cbn zeta.
  destruct (importNewProject_allowed (JObj fields) rest w Hcan) as (st & Hst & ->).
  rewrite (import_mutator_tab_object _ _ _ Htab). cbn [fst snd].
  split; [reflexivity|]. split; [reflexivity|].
  exists st. split; [exact Hst|]. split.
  - cbn [currentTab set_pinia added set_currentTab].
    change (pinia (set_projects _ _)) with
      (pinia (made (storeName (uuid_at (uuid_count w))) w)).
    change (pinia (added _ _)) with
      (pinia (made (storeName (uuid_at (uuid_count w))) w)) in Hst.
    by rewrite Hst.
  - cbn [pinia set_pinia]. by rewrite lookup_insert_eq.
Qed.

Lemma own_field_set_field_ne k k0 v fields :
  k0 <> k -> own_field k0 (set_field k v fields) = own_field k0 fields.
Proof.
  intros Hne. induction fields as [|[k' v'] r IH]; cbn [set_field own_field].
  - destruct (String.eqb k0 k) eqn:E; [apply String.eqb_eq in E; contradiction|reflexivity].
  - destruct (String.eqb k k') eqn:E; cbn [own_field].
    + apply String.eqb_eq in E. subst k'.
      by destruct (String.eqb k0 k) eqn:E0; [apply String.eqb_eq in E0|].
    + by rewrite IH.
Qed.

(** X12: a template whose [tab] and [page] are objects, instantiated below
    the plan limit: the call returns normally, the new project is last in
    the collection, and its page is the template's page with [orientation]
    set to "left" when it was "portrait" or "landscape" and left as it was
    otherwise; every other field of the page is the template's. *)
Theorem addProjectFromTemplate_ports_only_legacy_orientation
        (w : World) (fields tfields pfields : list (string * JsVal)) :
  canAddNewProject w = true ->
  own_field "tab" fields = Some (JObj tfields) ->
  own_field "page" fields = Some (JObj pfields) ->
  let name := storeName (uuid_at (uuid_count w)) in
  let w' := snd (addProjectFromTemplate (JObj fields) w) in
  let orientation := default JUndefined (own_field "orientation" pfields) in
  fst (addProjectFromTemplate (JObj fields) w) = Normal tt
  /\ projects w' = (projects w ++ [name])%list
  /\ exists st : ProjectState,
      pinia w' !! name = Some st
      /\ settings st = default JUndefined (own_field "settings" fields)
      /\ tab_name (tab st) = default JUndefined (own_field "name" tfields)
      /\ get_prop (page st) "orientation" =
         Normal (if includes ["portrait"; "landscape"] orientation
                 then JStr "left" else orientation)
      /\ forall key : string,
           key <> "orientation" ->
           get_prop (page st) key = Normal (default JUndefined (own_field key pfields)).
Proof.
  intros Hcan Htab Hpage. cbn zeta.
  destruct (addProjectFromTemplate_allowed (JObj fields) w Hcan) as (st & _ & Heq).
  rewrite Heq. clear Heq.
  assert (Hm : template_mutator (JObj fields) st =
               (Normal tt,
                let st1 := with_tab (set_tab_name (default JUndefined (own_field "name" tfields)))
                             (set_settings (default JUndefined (own_field "settings" fields))
                                (set_page (JObj pfields) st)) in
                if includes ["portrait"; "landscape"]
                            (default JUndefined (own_field "orientation" pfields))
                then set_page (JObj (set_field "orientation" (JStr "left") pfields)) st1
                else st1)).
  { unfold template_mutator, bind at 1.
    rewrite (import_mutator_tab_object _ _ _ Htab), Hpage.
    unfold bind, gets, lift, modify.
    cbn [page default from_option id set_page with_tab set_settings get_prop].
    by destruct (includes _ _). }
  rewrite Hm. cbn zeta. cbn [fst snd].
  split; [reflexivity|]. split; [reflexivity|].
  eexists. split; [apply lookup_insert_eq|].
  destruct (includes ["portrait"; "landscape"]
                     (default JUndefined (own_field "orientation" pfields))) eqn:E.
  - repeat split.
    + cbn [page set_page get_prop]. by rewrite own_field_set_field.
    + intros key Hkey. cbn [page set_page get_prop].
      by rewrite own_field_set_field_ne.
  - by repeat split.
Qed.

(** X13: a template whose [tab] is an object but which has no [page],
    instantiated below the plan limit: the project is added to the
    collection, no alert is emitted, and the call throws a TypeError at
    [state.page.orientation]. *)
Theorem addProjectFromTemplate_without_page_throws
        (w : World) (fields tfields : list (string * JsVal)) :
  canAddNewProject w = true ->
  own_field "tab" fields = Some (JObj tfields) ->
  own_field "page" fields = None ->
  let w' := snd (addProjectFromTemplate (JObj fields) w) in
  fst (addProjectFromTemplate (JObj fields) w) =
  Thrown (TypeError "Cannot read properties of undefined (reading 'orientation')")
  /\ projects w' = (projects w ++ [storeName (uuid_at (uuid_count w))])%list
  /\ alerts w' = alerts w
  /\ console w' = console w.
Proof.
  intros Hcan Htab Hpage. cbn zeta.
  destruct (addProjectFromTemplate_allowed (JObj fields) w Hcan) as (st & _ & Heq).
  rewrite Heq. clear Heq.
  assert (Hm : fst (template_mutator (JObj fields) st) =
               Thrown (TypeError "Cannot read properties of undefined (reading 'orientation')")).
  { unfold template_mutator, bind at 1.
    rewrite (import_mutator_tab_object _ _ _ Htab), Hpage. reflexivity. }
  cbn [fst snd]. by rewrite Hm.
Qed.

(** X14: a parsed file that is not a JSON object (null, a boolean, a
    number, a string or an array), imported below the plan limit: all
    three required keys are reported, in the order tab, page, settings,
    a project is still added to the collection, and the import throws a
    TypeError. *)
Theorem importNewProject_not_an_object
        (w : World) (data : JsVal) (rest : list File) :
  canAddNewProject w = true ->
  (forall fields, data <> JObj fields) ->
  let w' := snd (importNewProject (mkFile (Some data) :: rest) w) in
  (exists what, fst (importNewProject (mkFile (Some data) :: rest) w) = Thrown (TypeError what))
  /\ alerts w' = (alerts w ++ [missing_alert; missing_alert; missing_alert])%list
  /\ console w' =
     (console w ++ [missing_log "tab"; missing_log "page"; missing_log "settings"])%list
  /\ projects w' = (projects w ++ [storeName (uuid_at (uuid_count w))])%list.
Proof.
  intros Hcan Hdata. cbn zeta.
  destruct (importNewProject_allowed data rest w Hcan) as (st & _ & ->).
  cbn [fst snd].
  assert (Hmissing : missing_keys data ["tab"; "page"; "settings"] = ["tab"; "page"; "settings"]).
  { destruct data; try reflexivity. by destruct (Hdata fields). }
  split.
  - destruct data; try (eexists; reflexivity). by destruct (Hdata fields).
  - unfold reported. rewrite Hmissing. by repeat split.
Qed.

(** ** Creating twice, the current project, and the order after renumbering *)

Lemma made_twice name w : pinia (made name (made name w)) = pinia (made name w).
Proof.
  destruct (made_has_state name w) as [st Hst].
  unfold made at 1. unfold load_state, ensure_state. cbn [pinia set_pinia localStorage].
  change (localStorage (made name w)) with (localStorage w).
  rewrite Hst. destruct (getItem name (localStorage w)) as [stored|] eqn:Hget; [|reflexivity].
  apply insert_id. by apply made_stored.
Qed.

(** X15: [addNewProject] does not look for a store of the same name: two
    ids with the same store name (an id and its "pages/" form, or the same
    id twice), added where the limit allows both, put the same store into
    the collection twice, and the second call leaves every store state as
    the first one made it. *)
Theorem addNewProject_same_name_twice (w : World) (id1 id2 : string) :
  storeName id1 = storeName id2 ->
  isDesktop w = true \/ projects w = [] ->
  let w1 := snd (addNewProject (Some id1) w) in
  let w2 := snd (addNewProject (Some id2) w1) in
  fst (addNewProject (Some id2) w1) = Normal (Some (storeName id1))
  /\ projects w2 = (projects w ++ [storeName id1; storeName id1])%list
  /\ pinia w2 = pinia w1
  /\ ~ NoDup (projects w2).
Proof.
  intros Hname Hroom. cbn zeta.
  assert (Hcan : canAddNewProject w = true).
  { unfold canAddNewProject. destruct Hroom as [-> | ->]; [reflexivity|apply orb_true_r]. }
  rewrite (addNewProject_given id1 w Hcan). cbn [snd].
  assert (Hcan1 : canAddNewProject (added (storeName id1) w) = true).
  { unfold canAddNewProject. cbn [isDesktop projects added set_currentTab set_projects made
      set_pinia]. destruct Hroom as [-> | ->]; [reflexivity|apply orb_true_r]. }
  rewrite (addNewProject_given id2 _ Hcan1), <- Hname. cbn [fst snd].
  split; [reflexivity|]. split.
  { cbn [projects added set_currentTab set_projects made set_pinia]. by rewrite <- app_assoc. }
  split.
  { change (pinia (added (storeName id1) (added (storeName id1) w)))
      with (pinia (made (storeName id1) (made (storeName id1) w))).
    apply made_twice. }
  cbn [projects added set_currentTab set_projects made set_pinia]. rewrite <- app_assoc.
  intros Hnd. apply NoDup_app in Hnd as (_ & _ & Hnd).
  apply NoDup_cons in Hnd as [Hnot _]. apply Hnot. by left.
Qed.

(** X16: after a successful [addNewProject] the current tab is the new
    project's tab; [currentProject] finds a project with that tab id, and
    it is the new project when no project that was already in the
    collection carries the same tab id. *)
Theorem addNewProject_makes_new_project_current (w : World) (id : option string) :
  canAddNewProject w = true ->
  let name := new_name id w in
  let w' := snd (addNewProject id w) in
  exists st : ProjectState,
    pinia w' !! name = Some st
    /\ currentTab w' = Some (tab_id (tab st))
    /\ (exists (found : string) (sf : ProjectState),
          currentProject w' = Some found
          /\ pinia w' !! found = Some sf
          /\ tab_id (tab sf) = tab_id (tab st))
    /\ ((forall (other : string) (so : ProjectState),
           other ∈ projects w -> pinia w' !! other = Some so ->
           tab_id (tab so) <> tab_id (tab st)) ->
        currentProject w' = Some name).
Proof.
  intros Hcan. cbn zeta.
  assert (Hshape : exists w0, snd (addNewProject id w) = added (new_name id w) w0
                              /\ projects w0 = projects w).
  { destruct id as [id|].
    - rewrite addNewProject_given by exact Hcan. by exists w.
    - rewrite addNewProject_fresh by exact Hcan.
      by exists (set_uuid_count (S (uuid_count w)) w). }
  destruct Hshape as (w0 & -> & Hps).
  set (name := new_name id w).
  destruct (made_has_state name w0) as [st Hst].
  change (pinia (made name w0)) with (pinia (added name w0)) in Hst.
  exists st. split; [exact Hst|].
  assert (Hcur : currentTab (added name w0) = Some (tab_id (tab st))).
  { unfold added. cbn [currentTab set_currentTab].
    change (pinia (set_projects _ _)) with (pinia (added name w0)). by rewrite Hst. }
  split; [exact Hcur|].
  unfold currentProject. rewrite Hcur. unfold findProjectByTabId.
  set (f := fun project => match pinia (added name w0) !! project with
                           | Some st0 => String.eqb (tab_id (tab st0)) (tab_id (tab st))
                           | None => false
                           end).
  assert (Hprojects : projects (added name w0) = (projects w ++ [name])%list).
  { unfold added. cbn [projects set_currentTab set_projects made set_pinia]. by rewrite Hps. }
  assert (Hf : f name = true) by (unfold f; rewrite Hst; apply String.eqb_refl).
  pose proof (find_first_match f (projects (added name w0))) as Hfind.
  destruct (List.find f (projects (added name w0))) as [found|].
  - destruct Hfind as (i & Hi & Hfound & Hbefore). split.
    + unfold f in Hfound. destruct (pinia (added name w0) !! found) as [sf|] eqn:Hsf;
        [|discriminate].
      exists found, sf. split; [reflexivity|]. split; [exact Hsf|]. by apply String.eqb_eq.
    + intros Hothers. f_equal. rewrite Hprojects in Hi.
      destruct (decide (i < length (projects w))%nat) as [Hlt|Hge].
      * rewrite lookup_app_l in Hi by exact Hlt.
        unfold f in Hfound. destruct (pinia (added name w0) !! found) as [sf|] eqn:Hsf;
          [|discriminate].
        apply String.eqb_eq in Hfound.
        exfalso. apply (Hothers found sf); [by eapply list_elem_of_lookup_2|exact Hsf|exact Hfound].
      * rewrite lookup_app_r in Hi by lia.
        destruct (i - length (projects w))%nat; [by injection Hi|done].
  - exfalso. assert (Hin : name ∈ projects (added name w0)).
    { rewrite Hprojects. apply elem_of_app. right. by left. }
    specialize (Hfind name Hin). congruence.
Qed.

Lemma sortBy_sorted_same {A} (key : A -> Z) (l : list A) :
  StronglySorted (fun a b => key a <= key b) l -> sortBy l key = l.
Proof.
  induction 1 as [|x r Hr IH Hx]; [reflexivity|].
  unfold sortBy in *. cbn [foldr]. rewrite IH.
  destruct r as [|y r']; [reflexivity|]. cbn [sort_insert].
  apply Forall_cons in Hx as [Hxy _].
  by destruct (Z.leb_spec (key x) (key y)); [|lia].
Qed.

Lemma positions_sorted {A} (key : A -> Z) (l : list A) (offset : Z) :
  (forall (i : nat) x, l !! i = Some x -> key x = offset + Z.of_nat i) ->
  StronglySorted (fun a b => key a <= key b) l.
Proof.
  revert offset. induction l as [|x r IH]; intros offset H; constructor.
  - apply (IH (offset + 1)). intros i y Hy. rewrite (H (S i) y Hy). lia.
  - apply Forall_forall. intros y Hy. apply list_elem_of_lookup in Hy as [i Hi].
    rewrite (H 0%nat x eq_refl), (H (S i) y Hi). lia.
Qed.

Lemma syncTabOrder_sortKey (w : World) (i : nat) (project : string) :
  wf w -> NoDup (projects w) -> projects w !! i = Some project ->
  sortKey (snd (syncTabOrder w)) project = Z.of_nat i.
Proof.
  intros Hwf Hnd Hi. rewrite syncTabOrder_eq. unfold sortKey. cbn [snd pinia set_pinia].
  rewrite (renumbered_last _ _ _ i) by
      (try exact Hi; intros j Hj Hj'; pose proof (NoDup_lookup _ _ _ _ Hnd Hi Hj'); lia).
  unfold wf in Hwf. rewrite Forall_forall in Hwf.
  destruct (Hwf project) as [st Hst]; [by eapply list_elem_of_lookup_2|].
  rewrite Hst. reflexivity.
Qed.

(** X17: the orders [syncTabOrder] writes are the ones under which the sort
    of [hydrateFromStorage] reproduces the collection: after the body has
    run on distinct stores, sorting the collection by
    [tab.order ?? tab.created_at] gives it back unchanged. *)
Theorem syncTabOrder_order_survives_the_sort (w : World) :
  wf w ->
  NoDup (projects w) ->
  let w' := snd (syncTabOrder w) in
  sortBy (projects w') (sortKey w') = projects w'.
Proof.
  intros Hwf Hnd. cbn zeta. apply sortBy_sorted_same.
  apply (positions_sorted _ _ 0). intros i project Hi.
  rewrite syncTabOrder_eq in Hi. cbn [snd projects set_pinia] in Hi.
  by rewrite (syncTabOrder_sortKey w i project Hwf Hnd Hi).
Qed.

(** ** Emptying the collection *)

Lemma serve_nonempty r w :
  r <> HydrateFromStorage -> projects w <> [] -> projects (serve r w) <> [].
Proof.
  intros Hr Hne.
  assert (Hgrow : forall name, (if canAddNewProject w then (projects w ++ [name])%list
                                else projects w) <> []).
  { intros name. destruct (canAddNewProject w); [|exact Hne].
    intros E. by apply app_eq_nil in E as [_ E]. }
  destruct r as [id|files|template|project index| |]; cbn [serve]; [| | | |done|].
  - destruct (addNewProject_others id w) as (_ & _ & _ & H & _). cbn zeta in H. rewrite H.
    apply Hgrow.
  - destruct files as [|[[data|]] rest]; [exact Hne| |exact Hne].
    rewrite importNewProject_eq.
    destruct (add_then_patch_others (import_mutator data)
                (reported data ["tab"; "page"; "settings"] w)) as (_ & _ & _ & H & _).
    cbn zeta in H. rewrite H, canAddNewProject_reported. apply Hgrow.
  - rewrite addProjectFromTemplate_eq.
    destruct (add_then_patch_others (template_mutator template) w) as (_ & _ & _ & H & _).
    cbn zeta in H. rewrite H. apply Hgrow.
  - pose proof (deleteProject_length_positive project index w) as Hlen.
    intros E. rewrite E in Hlen. cbn in Hlen. lia.
  - by rewrite syncTabOrder_eq.
Qed.

(** X18: once the collection holds a project, no sequence of creations,
    imports, template instantiations, deletions and renumberings empties
    it; hydration is the one operation that can, and it does when local
    storage has no namespaced key. *)
Theorem only_hydration_empties_the_collection (rs : list request) (w : World) :
  (projects w <> [] ->
   Forall (fun r => r <> HydrateFromStorage) rs ->
   projects (serve_all rs w) <> [])
  /\ (getPagesFromStorage w = [] -> projects (serve HydrateFromStorage w) = []).
Proof.
  split.
  - intros Hne Hrs. revert w Hne.
    induction Hrs as [|r rest Hr _ IH]; intros w Hne; [exact Hne|].
    cbn [serve_all foldl]. apply IH. by apply serve_nonempty.
  - intros Hkeys. cbn [serve]. rewrite hydrateFromStorage_eq. cbn zeta. cbn [snd].
    by rewrite Hkeys.
Qed.

End Composable.


(** * Concrete runs *)

Example hydrate_tied_world :
  projects (snd (hydrateFromStorage example_uuid example_initial tied_world)) =
  ["pages/a"; "pages/b"].
Proof. vm_compute. reflexivity. Qed.

(** C5, as stated, fails: two stored projects with equal [tab.order] come
    out in storage order, the later-created one first. *)
Lemma hydrateFromStorage_ties_keep_storage_order :
  ~ spec_hydrated_order (snd (hydrateFromStorage example_uuid example_initial tied_world)).
Proof.
  intros H.
  specialize (H 0%nat 1%nat "pages/a" "pages/b"
                (saved "a" (Some 0) 2) (saved "b" (Some 0) 1)).
  unfold spec_precedes in H. simpl in H.
  assert (0 < 0 \/ 0 = 0 /\ 2 <= 1) as [?|[_ ?]]; [|lia|lia].
  apply H; [lia | vm_compute; reflexivity ..].
Qed.

Lemma deleteProject_leaves_collection_nonempty_witness :
  length (projects (snd (deleteProject example_uuid example_initial "pages/a" 0
                                       one_project_world))) = 1%nat
  /\ projects (snd (deleteProject example_uuid example_initial "pages/a" 0
                                  one_project_world)) = ["pages/3f2a"].
Proof.
  pose proof (deleteProject_leaves_collection_nonempty example_uuid example_initial
                one_project_world "pages/a" 0) as (_ & _ & Hone & Hfresh).
  split.
  - apply Hone. reflexivity.
  - apply Hfresh. reflexivity.
Defined.

Lemma addNewProject_plan_limit_witness :
  (fst (addNewProject example_uuid example_initial None two_project_world) = Normal None
   /\ alerts (snd (addNewProject example_uuid example_initial None two_project_world)) =
      [limit_alert])
  /\ exists name,
      fst (addNewProject example_uuid example_initial None desktop_world) = Normal (Some name)
      /\ projects (snd (addNewProject example_uuid example_initial None desktop_world)) =
         ["pages/a"; name].
Proof.
  split.
  - pose proof (proj1 (addNewProject_plan_limit example_uuid example_initial
                         two_project_world None)) as H.
    destruct H as (Hret & Halerts & _).
    + reflexivity.
    + simpl. lia.
    + split; [exact Hret | exact Halerts].
  - destruct (proj2 (addNewProject_plan_limit example_uuid example_initial
                       desktop_world None)) as (name & Hret & Hp & _).
    + reflexivity.
    + exists name. split; [exact Hret | exact Hp].
Defined.

Lemma syncTabOrder_writes_last_positions_witness :
  tab_order ∘ tab <$> pinia (snd (syncTabOrder two_project_world)) !! "pages/a" = Some (Some 1)
  /\ tab_order ∘ tab <$> pinia (snd (syncTabOrder two_project_world)) !! "pages/b" = Some (Some 0).
Proof.
  assert (Hwf : wf two_project_world).
  { unfold wf. simpl. repeat constructor; eexists; vm_compute; reflexivity. }
  destruct (syncTabOrder_writes_last_positions two_project_world Hwf) as (_ & _ & _ & _ & HBA).
  apply (HBA "pages/a" "pages/b"); [discriminate | reflexivity].
Defined.

(** On a browser build, asking for "x" and then for "pages/x" lists the same
    store twice. *)
Example same_store_listed_twice :
  projects (serve_all example_uuid example_initial
                      [AddNewProject (Some "x"); AddNewProject (Some "pages/x")]
                      empty_world) = ["pages/x"; "pages/x"].
Proof. vm_compute. reflexivity. Qed.

(** C6, as stated, fails: with the same store at positions 0 and 1 the
    renumbering leaves it with order 1, which is not the index 0 at which
    it also sits. *)
Lemma syncTabOrder_listed_twice_keeps_last_index :
  ~ spec_orders_are_positions
      (snd (syncTabOrder
              (serve_all example_uuid example_initial
                         [AddNewProject (Some "x"); AddNewProject (Some "pages/x")]
                         empty_world))).
Proof.
  intros H. specialize (H 0%nat "pages/x").
  assert (Hsits : projects
                    (snd (syncTabOrder
                            (serve_all example_uuid example_initial
                               [AddNewProject (Some "x"); AddNewProject (Some "pages/x")]
                               empty_world))) !! 0%nat = Some "pages/x")
    by (vm_compute; reflexivity).
  specialize (H Hsits). vm_compute in H. discriminate H.
Qed.

Lemma makeProjectStore_registers_namespaced_key_witness :
  "pages/b" ∈ projects (snd (hydrateFromStorage example_uuid example_initial tied_world))
  /\ pinia (snd (hydrateFromStorage example_uuid example_initial tied_world)) !! "pages/b" =
     Some (saved "b" (Some 0) 1)
  /\ fst (makeProjectStore example_uuid example_initial (Some "pages/b") tied_world) =
     Normal "pages/b".
Proof.
  destruct (makeProjectStore_registers_namespaced_key example_uuid example_initial
              "b" tied_world) as (_ & _ & _ & _ & _ & _ & Hstored & _).
  apply (Hstored "pages/b" (saved "b" (Some 0) 1)); reflexivity.
Defined.

Lemma importNewProject_missing_settings_still_creates_witness :
  projects (snd (importNewProject example_uuid example_initial
                                  [mkFile (Some file_without_settings)] empty_world)) =
  ["pages/3f2a"]
  /\ alerts (snd (importNewProject example_uuid example_initial
                                   [mkFile (Some file_without_settings)] empty_world)) =
     [missing_alert].
Proof.
  destruct (importNewProject_missing_settings_still_creates example_uuid example_initial
              empty_world file_without_settings [])
    as (Hp & Ha & _); try reflexivity.
  split; [exact Hp | exact Ha].
Defined.

Lemma importNewProject_keeps_legacy_orientation_witness :
  exists st,
    pinia (snd (importNewProject example_uuid example_initial
                                 [mkFile (Some legacy_file)] empty_world)) !! "pages/3f2a"
    = Some st
    /\ get_prop (page st) "orientation" = Normal (JStr "portrait").
Proof.
  destruct (importNewProject_keeps_legacy_orientation example_uuid example_initial
              empty_world
              [("tab", JObj [("name", JStr "Old")]);
               ("page", JObj [("orientation", JStr "portrait")]);
               ("settings", JObj [])]
              [("orientation", JStr "portrait")] "portrait" [])
    as (_ & st & Hst & _ & Ho & _); try reflexivity.
  - left. reflexivity.
  - exists st. split; [exact Hst | exact Ho].
Defined.

Lemma importNewProject_missing_tab_throws_witness :
  fst (importNewProject example_uuid example_initial
                        [mkFile (Some file_without_tab)] empty_world) =
  Thrown (TypeError "Cannot read properties of undefined (reading 'name')").
Proof.
  apply (importNewProject_missing_tab_throws example_uuid example_initial empty_world
           [("page", JObj [("orientation", JStr "left")]); ("settings", JObj [])] []);
    reflexivity.
Defined.

Lemma plan_limit_skips_patch_witness :
  fst (importNewProject example_uuid example_initial
                        [mkFile (Some legacy_file)] two_project_world) = Normal tt
  /\ projects (snd (addProjectFromTemplate example_uuid example_initial legacy_file
                                           two_project_world)) =
     ["pages/b"; "pages/a"].
Proof.
  destruct (plan_limit_skips_patch example_uuid example_initial two_project_world
              legacy_file legacy_file [])
    as (Hi & _ & _ & _ & _ & _ & Hp & _); [reflexivity|].
  split; [exact Hi | exact Hp].
Defined.

Lemma two_project_world_wf : wf two_project_world.
Proof. unfold wf. simpl. repeat constructor; eexists; vm_compute; reflexivity. Qed.

Lemma two_project_world_distinct : NoDup (projects two_project_world).
Proof. simpl. apply NoDup_ListNoDup. repeat constructor; simpl; intuition discriminate. Qed.

Lemma deleteProject_first_becomes_current_witness :
  currentProject (snd (deleteProject example_uuid example_initial "pages/b" 0
                                     two_project_world)) = Some "pages/a".
Proof.
  apply (deleteProject_first_becomes_current example_uuid example_initial
           two_project_world "pages/b" 0 "pages/a" []).
  - exact two_project_world_wf.
  - reflexivity.
Defined.

Lemma deleteProject_removes_by_index_witness :
  projects (snd (deleteProject example_uuid example_initial "pages/b" 5
                               two_project_world)) = ["pages/b"; "pages/a"]
  /\ projects (snd (deleteProject example_uuid example_initial "pages/b" (-1)
                                  two_project_world)) = ["pages/b"].
Proof.
  split.
  - destruct (deleteProject_removes_by_index example_uuid example_initial
                two_project_world "pages/b" 5) as (_ & Hpast & _); [simpl; lia|].
    apply Hpast. simpl. lia.
  - destruct (deleteProject_removes_by_index example_uuid example_initial
                two_project_world "pages/b" (-1)) as (_ & _ & Hend & _); [simpl; lia|].
    apply Hend. simpl. lia.
Defined.

Lemma browser_collection_stays_within_limit_witness :
  (length (projects (serve_all example_uuid example_initial
                               [AddNewProject None; AddNewProject None; AddNewProject None;
                                AddProjectFromTemplate legacy_file]
                               empty_world)) <= 2)%nat.
Proof.
  apply (browser_collection_stays_within_limit example_uuid example_initial
           [AddNewProject None; AddNewProject None; AddNewProject None;
            AddProjectFromTemplate legacy_file] empty_world).
  - reflexivity.
  - simpl. lia.
  - repeat constructor; discriminate.
Defined.

Lemma importNewProject_overwrites_page_settings_name_witness :
  fst (importNewProject example_uuid example_initial
                        [mkFile (Some legacy_file)] empty_world) = Normal tt
  /\ projects (snd (importNewProject example_uuid example_initial
                                     [mkFile (Some legacy_file)] empty_world)) =
     ["pages/3f2a"].
Proof.
  destruct (importNewProject_overwrites_page_settings_name example_uuid example_initial
              empty_world
              [("tab", JObj [("name", JStr "Old")]);
               ("page", JObj [("orientation", JStr "portrait")]);
               ("settings", JObj [])]
              [("name", JStr "Old")] [])
    as (Hret & Hp & _); try reflexivity.
  split; [exact Hret | exact Hp].
Defined.

Lemma addProjectFromTemplate_ports_only_legacy_orientation_witness :
  exists st,
    pinia (snd (addProjectFromTemplate example_uuid example_initial legacy_file empty_world))
    !! "pages/3f2a" = Some st
    /\ get_prop (page st) "orientation" = Normal (JStr "left").
Proof.
  destruct (addProjectFromTemplate_ports_only_legacy_orientation example_uuid example_initial
              empty_world
              [("tab", JObj [("name", JStr "Old")]);
               ("page", JObj [("orientation", JStr "portrait")]);
               ("settings", JObj [])]
              [("name", JStr "Old")] [("orientation", JStr "portrait")])
    as (_ & _ & st & Hst & _ & _ & Ho & _); try reflexivity.
  exists st. split; [exact Hst | exact Ho].
Defined.

Lemma addProjectFromTemplate_without_page_throws_witness :
  fst (addProjectFromTemplate example_uuid example_initial
                              (JObj [("tab", JObj [("name", JStr "Bare")])]) empty_world) =
  Thrown (TypeError "Cannot read properties of undefined (reading 'orientation')").
Proof.
  apply (addProjectFromTemplate_without_page_throws example_uuid example_initial empty_world
           [("tab", JObj [("name", JStr "Bare")])] [("name", JStr "Bare")]);
    reflexivity.
Defined.

Lemma importNewProject_not_an_object_witness :
  alerts (snd (importNewProject example_uuid example_initial
                                [mkFile (Some JNull)] empty_world)) =
  [missing_alert; missing_alert; missing_alert]
  /\ projects (snd (importNewProject example_uuid example_initial
                                     [mkFile (Some JNull)] empty_world)) = ["pages/3f2a"].
Proof.
  destruct (importNewProject_not_an_object example_uuid example_initial empty_world JNull [])
    as (_ & Ha & _ & Hp).
  - reflexivity.
  - intros fields. discriminate.
  - split; [exact Ha | exact Hp].
Defined.

Lemma addNewProject_same_name_twice_witness :
  projects (snd (addNewProject example_uuid example_initial (Some "pages/x")
                   (snd (addNewProject example_uuid example_initial (Some "x")
                                       desktop_world)))) =
  ["pages/a"; "pages/x"; "pages/x"].
Proof.
  apply (addNewProject_same_name_twice example_uuid example_initial desktop_world
           "x" "pages/x").
  - reflexivity.
  - left. reflexivity.
Defined.

Lemma addNewProject_makes_new_project_current_witness :
  exists st,
    pinia (snd (addNewProject example_uuid example_initial None one_project_world))
    !! "pages/3f2a" = Some st
    /\ currentTab (snd (addNewProject example_uuid example_initial None one_project_world)) =
       Some (tab_id (tab st)).
Proof.
  destruct (addNewProject_makes_new_project_current example_uuid example_initial
              one_project_world None) as (st & Hst & Hcur & _).
  - reflexivity.
  - exists st. split; [exact Hst | exact Hcur].
Defined.

Lemma syncTabOrder_order_survives_the_sort_witness :
  sortBy (projects (snd (syncTabOrder two_project_world)))
         (sortKey (snd (syncTabOrder two_project_world))) =
  projects (snd (syncTabOrder two_project_world)).
Proof.
  apply (syncTabOrder_order_survives_the_sort two_project_world).
  - exact two_project_world_wf.
  - exact two_project_world_distinct.
Defined.

Lemma only_hydration_empties_the_collection_witness :
  projects (serve_all example_uuid example_initial
                      [DeleteProject "pages/a" 0; SyncTabOrder] one_project_world) <> []
  /\ projects (serve example_uuid example_initial HydrateFromStorage one_project_world) = [].
Proof.
  pose proof (only_hydration_empties_the_collection example_uuid example_initial
                [DeleteProject "pages/a" 0; SyncTabOrder] one_project_world) as [Hkeep _].
  pose proof (only_hydration_empties_the_collection example_uuid example_initial
                [] one_project_world) as [_ Hempty].
  split.
  - apply Hkeep; [discriminate | repeat constructor; discriminate].
  - apply Hempty. reflexivity.
Defined.
